(** * Moon Dev Flow UI: flow validation, flow store and execution transport

    A shallow embedding of the TypeScript sources
      - [utils/flowValidation.ts]  ([validateFlow], [getValidationMessage]),
      - [store/flowStore.ts]       ([updateNodeConfig]),
      - [components/Sidebar/Sidebar.tsx] and [App.tsx] (the two [handleRunFlow]),
      - [hooks/useFlowExecution.ts] ([runFlow]),
      - [api/client.ts]            ([wsAPI.connectExecution]),
      - [hooks/useWebSocket.ts]    ([connect], [disconnect], the wrapped
                                    [onopen]/[onclose] handlers),
    followed by the properties of the specification that these functions
    decide. *)

From Stdlib Require Import ZArith Ascii.
From stdpp Require Import base option list strings gmap fin_maps fin_sets pretty.

Local Open Scope string_scope.
Local Open Scope Z_scope.
Set Warnings "-register-all".

(** ** JavaScript values

    The [data] object of an xyflow node is a [Record<string, unknown>]; it is
    filled from [JSON.parse] of a drag payload (FlowEditor [onDrop]), so its
    fields hold arbitrary JSON values.  Numbers are the integer-valued ones
    (printed in decimal by a template literal); fractions, [NaN] and arrays
    are left out, no property below depends on them. *)
Inductive JsValue : Type :=
  | VUndefined
  | VNull
  | VBool (b : bool)
  | VNum (z : Z)
  | VStr (s : string)
  | VObj (fields : gmap string JsValue).

(** [!v] is [negb (truthy v)]: the falsy values are [undefined], [null],
    [false], [0] and the empty string. *)
Definition truthy (v : JsValue) : bool :=
  match v with
  | VUndefined | VNull => false
  | VBool b => b
  | VNum z => negb (z =? 0)
  | VStr s => negb (String.eqb s "")
  | VObj _ => true
  end.

(** The conversion a template literal [`${v}`] applies. *)
Definition ToString (v : JsValue) : string :=
  match v with
  | VUndefined => "undefined"
  | VNull => "null"
  | VBool true => "true"
  | VBool false => "false"
  | VNum z => pretty z
  | VStr s => s
  | VObj _ => "[object Object]"
  end.

(** [Object.keys(v).length] for a value that is not [undefined] or [null]
    (the source only evaluates it behind [v && ...]): the own enumerable keys
    of an object, the indices of a string, nothing for a boolean or a number. *)
Definition Object_keys_length (v : JsValue) : nat :=
  match v with
  | VObj fields => size fields
  | VStr s => String.length s
  | _ => 0%nat
  end.

(** ** The data model: xyflow nodes and edges *)

Record XYPosition : Type := { x : Z; y : Z }.

Module Node.
Record t : Type := {
  id : string;
  type : option string;
  position : XYPosition;
  data : option (gmap string JsValue)
}.
End Node.

Module Edge.
Record t : Type := {
  id : string;
  source : string;
  target : string
}.
End Edge.

(** [node.data?.[key]]: [undefined] when [data] is absent or has no such key. *)
Definition data_get (node : Node.t) (key : string) : JsValue :=
  default VUndefined (Node.data node ≫= lookup key).

(** ** flowValidation.ts *)

Inductive Severity : Type := error | warning.

#[global] Instance Severity_eq_dec : EqDecision Severity.
Proof. solve_decision. Defined.

Module ValidationError.
Record t : Type := {
  type : Severity;
  message : string;
  nodeId : option string
}.
End ValidationError.

Module ValidationResult.
Record t : Type := {
  isValid : bool;
  errors : list ValidationError.t
}.
End ValidationResult.

(** [arr.push(x)] on an array threaded as a value. *)
Definition push {A : Type} (arr : list A) (x : A) : list A := (arr ++ [x])%list.

Definition empty_flow_error : ValidationError.t :=
  {| ValidationError.type := error;
     ValidationError.message := "Flow must contain at least one node";
     ValidationError.nodeId := None |}.

Definition agent_type_error (node : Node.t) : ValidationError.t :=
  {| ValidationError.type := error;
     ValidationError.message := "Node " +:+ Node.id node +:+ " has no agent type";
     ValidationError.nodeId := Some (Node.id node) |}.

Definition config_warning (node : Node.t) : ValidationError.t :=
  {| ValidationError.type := warning;
     ValidationError.message :=
       "Node " +:+ Node.id node +:+ " (" +:+ ToString (data_get node "type")
               +:+ ") has no configuration";
     ValidationError.nodeId := Some (Node.id node) |}.

Definition not_connected_warning (node : Node.t) : ValidationError.t :=
  {| ValidationError.type := warning;
     ValidationError.message :=
       "Node " +:+ Node.id node +:+ " (" +:+ ToString (data_get node "type")
               +:+ ") is not connected to any other nodes";
     ValidationError.nodeId := Some (Node.id node) |}.

(** [!nodeType] of the loop body. *)
Definition no_agent_type (node : Node.t) : bool :=
  negb (truthy (data_get node "type")).

(** [node.data?.config && Object.keys(node.data.config).length > 0], read as
    a condition. *)
Definition hasConfig (node : Node.t) : bool :=
  let config := data_get node "config" in
  truthy config && (0 <? Object_keys_length config)%nat.

(** The body of [for (const node of nodes)]. *)
Definition check_node (errors : list ValidationError.t) (node : Node.t)
  : list ValidationError.t :=
  let errors :=
    if no_agent_type node then push errors (agent_type_error node) else errors in
  if negb (hasConfig node) then push errors (config_warning node) else errors.

(** The body of [for (const edge of edges)] on the [Set<string>]. *)
Definition add_edge_ends (connectedNodeIds : gset string) (edge : Edge.t)
  : gset string :=
  {[ Edge.target edge ]} ∪ ({[ Edge.source edge ]} ∪ connectedNodeIds).

Definition connected_ids (edges : list Edge.t) : gset string :=
  foldl add_edge_ends ∅ edges.

Definition validateFlow (nodes : list Node.t) (edges : list Edge.t)
  : ValidationResult.t :=
  let errors : list ValidationError.t := [] in
  if (length nodes =? 0)%nat then
    let errors := push errors empty_flow_error in
    {| ValidationResult.isValid := false; ValidationResult.errors := errors |}
  else
    let errors := foldl check_node errors nodes in
    let connectedNodeIds := connected_ids edges in
    let errors :=
      if (1 <? length nodes)%nat && (size connectedNodeIds <? length nodes)%nat
      then
        let disconnectedNodes :=
          filter (λ n, Node.id n ∉ connectedNodeIds) nodes in
        foldl (λ errs node, push errs (not_connected_warning node))
              errors disconnectedNodes
      else errors in
    let hasErrors :=
      existsb (λ e, bool_decide (ValidationError.type e = error)) errors in
    {| ValidationResult.isValid := negb hasErrors;
       ValidationResult.errors := errors |}.

(** [getValidationMessage] and the identical filter/map/join of the Sidebar. *)
Definition LF : string := String (Ascii.ascii_of_nat 10) EmptyString.

Definition error_messages (errors : list ValidationError.t) : list string :=
  map ValidationError.message
      (filter (λ e, ValidationError.type e = error) errors).

Definition getValidationMessage (result : ValidationResult.t) : string :=
  if ValidationResult.isValid result then "Flow is valid and ready to run"
  else String.concat LF (error_messages (ValidationResult.errors result)).

(** Sample graphs. *)
Definition mk_node (i : string) (d : gmap string JsValue) : Node.t :=
  {| Node.id := i; Node.type := Some "agent";
     Node.position := {| x := 0; y := 0 |}; Node.data := Some d |}.

Definition mk_edge (i s t : string) : Edge.t :=
  {| Edge.id := i; Edge.source := s; Edge.target := t |}.

Definition cfg1 : JsValue := VObj {[ "symbol" := VStr "BTC" ]}.

Definition agent (i ty : string) : Node.t :=
  mk_node i (<[ "type" := VStr ty ]> (<[ "config" := cfg1 ]> ∅)).



(** *** The same function with its [errors] array on a heap

    [validateFlow] allocates a fresh array with [const errors = []], pushes
    to it and returns a reference to it inside the result.  The model below
    keeps that array in a store of arrays, so that what a call does to the
    arrays that already exist is visible. *)
Module Imperative.

Abbreviation loc := nat.
Abbreviation heap := (gmap loc (list ValidationError.t)).

Definition M (A : Type) : Type := heap → A * heap.

#[global] Instance M_ret : MRet M := λ A a h, (a, h).
#[global] Instance M_bind : MBind M :=
  λ A B f m h, let '(a, h') := m h in f a h'.

(** [[]]: a new array at an address no array has. *)
Definition new_array : M loc :=
  λ h, let l := fresh (dom h) in (l, <[ l := [] ]> h).

Definition array_push (l : loc) (e : ValidationError.t) : M unit :=
  λ h, (tt, alter (λ arr, push arr e) l h).

Definition array_some (l : loc) (p : ValidationError.t → bool) : M bool :=
  λ h, (existsb p (default [] (h !! l)), h).

Fixpoint for_of {A : Type} (xs : list A) (body : A → M unit) : M unit :=
  match xs with
  | [] => mret tt
  | x :: xs' => body x ;; for_of xs' body
  end.

Definition when (b : bool) (m : M unit) : M unit :=
  if b then m else mret tt.

(** A [ValidationResult] whose [errors] is a reference. *)
Record ResultRef : Type := { isValid : bool; errors : loc }.

Definition validateFlow (nodes : list Node.t) (edges : list Edge.t)
  : M ResultRef :=
  errors ← new_array;
  if (length nodes =? 0)%nat then
    array_push errors empty_flow_error ;;
    mret {| isValid := false; errors := errors |}
  else
    for_of nodes (λ node,
      when (no_agent_type node)
           (array_push errors (agent_type_error node)) ;;
      when (negb (hasConfig node))
           (array_push errors (config_warning node))) ;;
    let connectedNodeIds := connected_ids edges in
    when ((1 <? length nodes)%nat && (size connectedNodeIds <? length nodes)%nat)
         (for_of (filter (λ n, Node.id n ∉ connectedNodeIds) nodes)
                 (λ node, array_push errors (not_connected_warning node))) ;;
    hasErrors ← array_some errors
                  (λ e, bool_decide (ValidationError.type e = error));
    mret {| isValid := negb hasErrors; errors := errors |}.

(** Two calls in a row on the same arguments. *)
Definition validate_twice (nodes : list Node.t) (edges : list Edge.t)
  : M (ResultRef * ResultRef) :=
  r1 ← validateFlow nodes edges;
  r2 ← validateFlow nodes edges;
  mret (r1, r2).

End Imperative.

(** ** flowStore.ts *)

Record ExecutionResult : Type := {
  exec_id : string;
  flow_id : string;
  status : string
}.

Module FlowState.
Record t : Type := {
  currentFlowId : option string;
  currentFlowName : string;
  currentFlowDescription : string;
  nodes : list Node.t;
  edges : list Edge.t;
  isLoadingFlows : bool;
  currentExecution : option ExecutionResult
}.
End FlowState.

(** [set({ nodes })]: zustand merges the partial state into the store. *)
Definition set_nodes (nodes : list Node.t) (state : FlowState.t) : FlowState.t :=
  {| FlowState.currentFlowId := FlowState.currentFlowId state;
     FlowState.currentFlowName := FlowState.currentFlowName state;
     FlowState.currentFlowDescription := FlowState.currentFlowDescription state;
     FlowState.nodes := nodes;
     FlowState.edges := FlowState.edges state;
     FlowState.isLoadingFlows := FlowState.isLoadingFlows state;
     FlowState.currentExecution := FlowState.currentExecution state |}.

Definition setCurrentExecution (execution : option ExecutionResult)
  (state : FlowState.t) : FlowState.t :=
  {| FlowState.currentFlowId := FlowState.currentFlowId state;
     FlowState.currentFlowName := FlowState.currentFlowName state;
     FlowState.currentFlowDescription := FlowState.currentFlowDescription state;
     FlowState.nodes := FlowState.nodes state;
     FlowState.edges := FlowState.edges state;
     FlowState.isLoadingFlows := FlowState.isLoadingFlows state;
     FlowState.currentExecution := execution |}.

(** [{ ...node, data: { ...node.data, config } }]: spreading an absent
    [data] contributes no field. *)
Definition with_config (config : gmap string JsValue) (node : Node.t) : Node.t :=
  {| Node.id := Node.id node;
     Node.type := Node.type node;
     Node.position := Node.position node;
     Node.data := Some (<[ "config" := VObj config ]> (default ∅ (Node.data node))) |}.

Definition updateNodeConfig (nodeId : string) (config : gmap string JsValue)
  (state : FlowState.t) : FlowState.t :=
  let updatedNodes :=
    map (λ node,
           if String.eqb (Node.id node) nodeId then with_config config node
           else node)
        (FlowState.nodes state) in
  set_nodes updatedNodes state.

(** ** Sidebar.tsx: the run button of the sidebar

    The component state is [validationMessage]; [timeouts] are the pending
    [setTimeout(() => setValidationMessage(''), ms)] calls and [runCalls]
    counts the calls of the [onRunFlow] prop. *)
Module Sidebar.
Record t : Type := {
  validationMessage : string;
  timeouts : list Z;
  runCalls : nat
}.

Definition handleRunFlow (store : FlowState.t) (s : t) : t :=
  let validation :=
    validateFlow (FlowState.nodes store) (FlowState.edges store) in
  if negb (ValidationResult.isValid validation) then
    let errorMsg :=
      String.concat LF (error_messages (ValidationResult.errors validation)) in
    {| validationMessage := "❌ Flow validation failed:" +:+ LF +:+ errorMsg;
       timeouts := (timeouts s ++ [5000])%list;
       runCalls := runCalls s |}
  else
    {| validationMessage := "";
       timeouts := timeouts s;
       runCalls := S (runCalls s) |}.
End Sidebar.

(** ** useFlowExecution.ts and App.tsx: the run button of the header

    [executionAPI.run] posts to [/api/execution/{flowId}/run]; the backend's
    answer is an execution or a rejected promise.  [posted] lists the flow ids
    posted so far. *)
Record ApiError : Type := {
  response_message : option string;
  err_message : string
}.

Module App.
Record t : Type := {
  isRunning : bool;
  run_error : option string;
  showExecutionMonitor : bool;
  posted : list string
}.

(** [a || b || c] on strings: the first non-empty one. *)
Definition first_truthy (a : option string) (b c : string) : string :=
  match a with
  | Some m => if String.eqb m "" then (if String.eqb b "" then c else b) else m
  | None => if String.eqb b "" then c else b
  end.

Definition runFlow (api_run : string → ExecutionResult + ApiError)
  (store : FlowState.t) (s : t)
  : option ExecutionResult * FlowState.t * t :=
  match FlowState.currentFlowId store with
  | None | Some "" =>
      (None, store,
       {| isRunning := isRunning s; run_error := Some "No flow selected";
          showExecutionMonitor := showExecutionMonitor s; posted := posted s |})
  | Some currentFlowId =>
      let posted' := (posted s ++ [currentFlowId])%list in
      match api_run currentFlowId with
      | inl execution =>
          (Some execution, setCurrentExecution (Some execution) store,
           {| isRunning := false; run_error := None;
              showExecutionMonitor := showExecutionMonitor s;
              posted := posted' |})
      | inr err =>
          (None, store,
           {| isRunning := false;
              run_error :=
                Some (first_truthy (response_message err) (err_message err)
                                   "Failed to run flow");
              showExecutionMonitor := showExecutionMonitor s;
              posted := posted' |})
      end
  end.

Definition handleRunFlow (api_run : string → ExecutionResult + ApiError)
  (store : FlowState.t) (s : t) : FlowState.t * t :=
  let '(execution, store', s') := runFlow api_run store s in
  match execution with
  | Some _ =>
      (store',
       {| isRunning := isRunning s'; run_error := run_error s';
          showExecutionMonitor := true; posted := posted s' |})
  | None => (store', s')
  end.
End App.

(** ** api/client.ts ([wsAPI.connectExecution]) and hooks/useWebSocket.ts

    The browser's part is kept to what the two files rely on: a socket has a
    [url], a [readyState] and the frames [sent] on it; the event loop holds
    the pending timers.  [new WebSocket(url)] is taken to succeed. *)

Inductive ReadyState : Type := CONNECTING | OPEN | CLOSING | CLOSED.

#[global] Instance ReadyState_eq_dec : EqDecision ReadyState.
Proof. solve_decision. Defined.

Record WebSocket : Type := {
  url : string;
  readyState : ReadyState;
  sent : list string
}.

Inductive ConsoleEntry : Type :=
  | console_log (line : string)
  | console_error (line : string) (detail : string).

(** Calls of the callbacks the caller passed to the hook in [options]. *)
Inductive Callback : Type :=
  | onMessage (data : JsValue)
  | onError
  | onConnect
  | onDisconnect.

(** What the hook is given from outside: the build setting
    [import.meta.env.VITE_API_URL], the platform's [JSON.parse] ([None]: it
    throws a [SyntaxError]), the hook's [executionId] argument, and whether
    the caller's [onMessage] callback throws on a value. *)
Record Env : Type := {
  VITE_API_URL : option string;
  JSON_parse : string → option JsValue;
  executionId : option string;
  onMessage_throws : JsValue → bool
}.

(** [import.meta.env.VITE_API_URL || 'http://localhost:8000'] *)
Definition API_BASE (env : Env) : string :=
  match VITE_API_URL env with
  | Some u => if String.eqb u "" then "http://localhost:8000" else u
  | None => "http://localhost:8000"
  end.

Fixpoint drop_chars (n : nat) (s : string) : string :=
  match n, s with
  | S n', String _ s' => drop_chars n' s'
  | _, _ => s
  end.

(** [base.replace(/^https?:\/\//, '')] *)
Definition strip_scheme (base : string) : string :=
  if String.prefix "https://" base then drop_chars 8 base
  else if String.prefix "http://" base then drop_chars 7 base
  else base.

Definition wsUrl (env : Env) (executionId : string) : string :=
  let protocol := if String.prefix "https" (API_BASE env) then "wss" else "ws" in
  protocol +:+ "://" +:+ strip_scheme (API_BASE env)
           +:+ "/ws/execution/" +:+ executionId.

Module Hook.
Record t : Type := {
  sockets : list WebSocket;
  wsRef : option nat;
  isConnected : bool;
  reconnectTimeoutRef : option nat;
  timers : list (nat * Z);
  nextTimer : nat;
  console : list ConsoleEntry;
  calls : list Callback
}.

Definition init : t :=
  {| sockets := []; wsRef := None; isConnected := false;
     reconnectTimeoutRef := None; timers := []; nextTimer := 0%nat;
     console := []; calls := [] |}.

Definition set_sockets (v : list WebSocket) (s : t) : t :=
  {| sockets := v; wsRef := wsRef s; isConnected := isConnected s;
     reconnectTimeoutRef := reconnectTimeoutRef s; timers := timers s;
     nextTimer := nextTimer s; console := console s; calls := calls s |}.

Definition set_wsRef (v : option nat) (s : t) : t :=
  {| sockets := sockets s; wsRef := v; isConnected := isConnected s;
     reconnectTimeoutRef := reconnectTimeoutRef s; timers := timers s;
     nextTimer := nextTimer s; console := console s; calls := calls s |}.

Definition setIsConnected (v : bool) (s : t) : t :=
  {| sockets := sockets s; wsRef := wsRef s; isConnected := v;
     reconnectTimeoutRef := reconnectTimeoutRef s; timers := timers s;
     nextTimer := nextTimer s; console := console s; calls := calls s |}.

Definition set_timers (v : list (nat * Z)) (s : t) : t :=
  {| sockets := sockets s; wsRef := wsRef s; isConnected := isConnected s;
     reconnectTimeoutRef := reconnectTimeoutRef s; timers := v;
     nextTimer := nextTimer s; console := console s; calls := calls s |}.

Definition print (e : ConsoleEntry) (s : t) : t :=
  {| sockets := sockets s; wsRef := wsRef s; isConnected := isConnected s;
     reconnectTimeoutRef := reconnectTimeoutRef s; timers := timers s;
     nextTimer := nextTimer s; console := (console s ++ [e])%list;
     calls := calls s |}.

Definition call (c : Callback) (s : t) : t :=
  {| sockets := sockets s; wsRef := wsRef s; isConnected := isConnected s;
     reconnectTimeoutRef := reconnectTimeoutRef s; timers := timers s;
     nextTimer := nextTimer s; console := console s;
     calls := (calls s ++ [c])%list |}.

(** [ref.current = setTimeout(() => connect(), ms)] *)
Definition setTimeout (ms : Z) (s : t) : t :=
  {| sockets := sockets s; wsRef := wsRef s; isConnected := isConnected s;
     reconnectTimeoutRef := Some (nextTimer s);
     timers := (timers s ++ [(nextTimer s, ms)])%list;
     nextTimer := S (nextTimer s); console := console s; calls := calls s |}.

Definition clearTimeout (tid : nat) (s : t) : t :=
  set_timers (filter (λ p, p.1 ≠ tid) (timers s)) s.

Definition set_readyState (i : nat) (rs : ReadyState) (s : t) : t :=
  set_sockets
    (alter (λ ws, {| url := url ws; readyState := rs; sent := sent ws |})
           i (sockets s)) s.

(** [wsRef.current?.readyState === WebSocket.OPEN] *)
Definition current_is_open (s : t) : bool :=
  match wsRef s ≫= (λ i, sockets s !! i) with
  | Some ws => bool_decide (readyState ws = OPEN)
  | None => false
  end.

(** [connect]: [wsAPI.connectExecution] creates the socket; its handlers
    are the functions [ws_onopen], [ws_onmessage], [ws_onerror] and
    [ws_onclose] below, [ws_onopen] and [ws_onclose] as the hook wraps
    them. *)
Definition connect (env : Env) (s : t) : t :=
  match executionId env with
  | None | Some "" => s
  | Some executionId =>
      if current_is_open s then s
      else
        let ws := {| url := wsUrl env executionId;
                     readyState := CONNECTING; sent := [] |} in
        set_wsRef (Some (length (sockets s)))
                  (set_sockets (sockets s ++ [ws])%list s)
  end.

Definition execution_name (env : Env) : string :=
  default "" (executionId env).

(** The socket [i] has opened. *)
Definition ws_onopen (env : Env) (i : nat) (s : t) : t :=
  let s := set_readyState i OPEN s in
  let s := print (console_log ("✅ Connected to execution "
                               +:+ execution_name env)) s in
  let s := setIsConnected true s in
  call onConnect s.

(** The socket [i] has closed. *)
Definition ws_onclose (env : Env) (i : nat) (s : t) : t :=
  let s := set_readyState i CLOSED s in
  let s := print (console_log ("❌ Disconnected from execution "
                               +:+ execution_name env)) s in
  let s := setIsConnected false s in
  let s := call onDisconnect s in
  setTimeout 3000 s.

Definition ws_onerror (i : nat) (s : t) : t :=
  let s := print (console_error "WebSocket error:" "Event") s in
  call onError s.

(** A pending timer fires: it leaves the event loop and runs [connect]. *)
Definition timer_fires (env : Env) (tid : nat) (s : t) : t :=
  if bool_decide (tid ∈ (timers s).*1) then connect env (clearTimeout tid s)
  else s.

(** [ws.close()]: the socket starts closing; its close event comes later. *)
Definition ws_close (i : nat) (s : t) : t :=
  match sockets s !! i with
  | Some ws =>
      if bool_decide (readyState ws = CLOSED) then s
      else set_readyState i CLOSING s
  | None => s
  end.

Definition disconnect (s : t) : t :=
  let s := match reconnectTimeoutRef s with
           | Some tid => clearTimeout tid s
           | None => s
           end in
  let s := match wsRef s with
           | Some i => set_wsRef None (ws_close i s)
           | None => s
           end in
  setIsConnected false s.

(** *** Handlers that may throw: a state and exception monad *)

Inductive outcome (A : Type) : Type :=
  | Returned (a : A)
  | Thrown (exn : string).
Arguments Returned {A} a.
Arguments Thrown {A} exn.

Definition T (A : Type) : Type := t → outcome A * t.

#[global] Instance T_ret : MRet T := λ A a s, (Returned a, s).
#[global] Instance T_bind : MBind T :=
  λ A B f m s,
    match m s with
    | (Returned a, s') => f a s'
    | (Thrown e, s') => (Thrown e, s')
    end.

Definition throw {A : Type} (exn : string) : T A := λ s, (Thrown exn, s).

Definition try_catch {A : Type} (body : T A) (handler : string → T A) : T A :=
  λ s,
    match body s with
    | (Returned a, s') => (Returned a, s')
    | (Thrown e, s') => handler e s'
    end.

Definition lift (f : t → t) : T unit := λ s, (Returned tt, f s).

Definition JSON_parse_call (env : Env) (text : string) : T JsValue :=
  match JSON_parse env text with
  | Some v => mret v
  | None => throw "SyntaxError"
  end.

(** The [onMessage] argument of [connectExecution], as the hook passes it:
    [(data) => { options.onMessage?.(data) }]. *)
Definition onMessage_call (env : Env) (data : JsValue) : T unit :=
  lift (call (onMessage data)) ;;
  if onMessage_throws env data then throw "Error" else mret tt.

(** [ws.onmessage] of [connectExecution]. *)
Definition ws_onmessage (env : Env) (event_data : string) : T unit :=
  try_catch
    (data ← JSON_parse_call env event_data;
     onMessage_call env data)
    (λ e, lift (print (console_error "Failed to parse WebSocket message:" e))).

(** *** The event loop *)

(** What the environment can do to the hook.  A message carries the
    sequence number under which the server's hub published it, and its
    text on the wire. *)
Inductive Event : Type :=
  | SocketOpened (i : nat)
  | SocketMessage (i : nat) (sequence : Z) (data : string)
  | SocketError (i : nat)
  | SocketClosed (i : nat)
  | TimerFired (tid : nat).

Definition step (env : Env) (s : t) (ev : Event) : t :=
  match ev with
  | SocketOpened i => ws_onopen env i s
  | SocketMessage i _ data => (ws_onmessage env data s).2
  | SocketError i => ws_onerror i s
  | SocketClosed i => ws_onclose env i s
  | TimerFired tid => timer_fires env tid s
  end.

Definition run (env : Env) (s : t) (evs : list Event) : t :=
  foldl (step env) s evs.

(** The hook after its mount effect has run [connect()]. *)
Definition mounted (env : Env) : t := connect env init.

End Hook.

(** ** Vocabulary of the properties *)

(** [s] ends with [suffix]. *)
Fixpoint ends_with (suffix s : string) : bool :=
  String.eqb s suffix
  || match s with
     | EmptyString => false
     | String _ s' => ends_with suffix s'
     end.

Fixpoint last_char (s : string) : option Ascii.ascii :=
  match s with
  | EmptyString => None
  | String c EmptyString => Some c
  | String _ s' => last_char s'
  end.

(** The three kinds of finding [validateFlow] reports on a node, told apart
    by severity and by the fixed end of the message. *)
Definition is_error (e : ValidationError.t) : Prop :=
  ValidationError.type e = error.

Definition is_config_warning (e : ValidationError.t) : Prop :=
  ValidationError.type e = warning
  ∧ ends_with " has no configuration" (ValidationError.message e) = true.

Definition is_not_connected_warning (e : ValidationError.t) : Prop :=
  ValidationError.type e = warning
  ∧ ends_with " is not connected to any other nodes"
              (ValidationError.message e) = true.

(** A node that is neither the source nor the target of any edge. *)
Definition untouched (edges : list Edge.t) (node : Node.t) : Prop :=
  Forall (λ e, Edge.source e ≠ Node.id node ∧ Edge.target e ≠ Node.id node)
         edges.

(** Every edge endpoint is the id of a node, and node ids are unique: the
    invariant of a flow graph in the data model. *)
Definition endpoints_exist (nodes : list Node.t) (edges : list Edge.t) : Prop :=
  Forall (λ e, Edge.source e ∈ map Node.id nodes
               ∧ Edge.target e ∈ map Node.id nodes) edges.

Definition unique_ids (nodes : list Node.t) : Prop :=
  NoDup (map Node.id nodes).

(** The agent type of a node is missing or the empty string. *)
Definition missing_or_empty_type (node : Node.t) : Prop :=
  data_get node "type" = VUndefined ∨ data_get node "type" = VStr "".

(** The number of configuration entries of a node: none when [config] is
    absent. *)
Definition config_entry_count (node : Node.t) : nat :=
  match data_get node "config" with
  | VUndefined | VNull => 0%nat
  | v => Object_keys_length v
  end.

(** The agent type of a node is a non-empty string. *)
Definition nonempty_agent_type (node : Node.t) : Prop :=
  ∃ s, data_get node "type" = VStr s ∧ s ≠ "".

(** The message of the empty-flow error in the spelling of the
    specification. *)
Definition spec_empty_flow_message : string :=
  "flow must contain at least one node".

(** An environment to run the hook in: [JSON.parse] on the three literal
    texts, everything else taken as malformed. *)
Definition JSON_parse_literals (text : string) : option JsValue :=
  if String.eqb text "null" then Some VNull
  else if String.eqb text "true" then Some (VBool true)
  else if String.eqb text "false" then Some (VBool false)
  else None.

Definition demo_env : Env :=
  {| VITE_API_URL := None;
     JSON_parse := JSON_parse_literals;
     executionId := Some "exec-1";
     onMessage_throws := λ _, false |}.

(** One connection that receives [msgs] (sequence number and text of each),
    is closed, and whose reconnect timer then fires. *)
Definition session (msgs : list (Z * string)) : list Hook.Event :=
  ([Hook.SocketOpened 0]
     ++ map (λ m, Hook.SocketMessage 0 m.1 m.2) msgs
     ++ [Hook.SocketClosed 0; Hook.TimerFired 0])%list.

(** The socket the reconnect creates: the second one of the hook. *)
Definition reconnect_request (env : Env) (msgs : list (Z * string))
  : option WebSocket :=
  Hook.sockets (Hook.run env (Hook.mounted env) (session msgs)) !! 1%nat.



(** What one turn of the node loop pushes, and what the disconnected-node
    check pushes: the two segments of the result's [errors]. *)
Definition node_findings (node : Node.t) : list ValidationError.t :=
  ((if no_agent_type node then [agent_type_error node] else [])
     ++ (if negb (hasConfig node) then [config_warning node] else []))%list.

Definition not_connected_findings (nodes : list Node.t) (edges : list Edge.t)
  : list ValidationError.t :=
  if (1 <? length nodes)%nat && (size (connected_ids edges) <? length nodes)%nat
  then map not_connected_warning
           (filter (λ n, Node.id n ∉ connected_ids edges) nodes)
  else [].

#[global] Instance is_error_dec e : Decision (is_error e).
Proof. unfold is_error. apply _. Defined.

#[global] Instance is_config_warning_dec e : Decision (is_config_warning e).
Proof. unfold is_config_warning. apply _. Defined.

#[global] Instance is_not_connected_warning_dec e :
  Decision (is_not_connected_warning e).
Proof. unfold is_not_connected_warning. apply _. Defined.

#[global] Instance untouched_dec edges node : Decision (untouched edges node).
Proof. unfold untouched. apply _. Defined.

#[global] Instance missing_or_empty_type_dec node :
  Decision (missing_or_empty_type node).
Proof.
  unfold missing_or_empty_type.
  destruct (data_get node "type") as [| | | |s|];
    try (right; intros [?|?]; discriminate); [left; by left|].
  destruct (decide (s = "")) as [->|Hne]; [left; by right|].
  right. intros [?|?]; [discriminate|congruence].
Defined.

(** More sample graphs: three agents of which [c] is isolated; the same
    nodes after a fourth node [d] was deleted while its edges stayed in the
    store; and three agents on a cycle. *)
Definition bare (i : string) : Node.t := mk_node i ∅.

Definition typed_only (i ty : string) : Node.t :=
  mk_node i {[ "type" := VStr ty ]}.

Definition abc : list Node.t :=
  [agent "a" "trading"; agent "b" "risk"; agent "c" "analysis"].

Definition edge_ab : list Edge.t := [mk_edge "e1" "a" "b"].


Definition cycle_abc : list Edge.t :=
  [mk_edge "e1" "a" "b"; mk_edge "e2" "b" "c"; mk_edge "e3" "c" "a"].

#[global] Instance unique_ids_dec nodes : Decision (unique_ids nodes).
Proof. unfold unique_ids. apply _. Defined.

#[global] Instance endpoints_exist_dec nodes edges :
  Decision (endpoints_exist nodes edges).
Proof. unfold endpoints_exist. apply _. Defined.

(** The fields of [node.data], none when [data] is absent. *)
Definition data_fields (node : Node.t) : gmap string JsValue :=
  default ∅ (Node.data node).

(** A saved flow without nodes, a backend that accepts every run request,
    and the two components before any click. *)
Definition saved_empty_flow : FlowState.t :=
  {| FlowState.currentFlowId := Some "flow-1";
     FlowState.currentFlowName := "Untitled Flow";
     FlowState.currentFlowDescription := "";
     FlowState.nodes := [];
     FlowState.edges := [];
     FlowState.isLoadingFlows := false;
     FlowState.currentExecution := None |}.

Definition accepting_backend (flowId : string) : ExecutionResult + ApiError :=
  inl {| exec_id := "exec-1"; flow_id := flowId; status := "pending" |}.

Definition app0 : App.t :=
  {| App.isRunning := false; App.run_error := None;
     App.showExecutionMonitor := false; App.posted := [] |}.

Definition sidebar0 : Sidebar.t :=
  {| Sidebar.validationMessage := ""; Sidebar.timeouts := [];
     Sidebar.runCalls := 0%nat |}.

(** The part of the hook's state that decides which sockets exist and
    which timers are pending. *)
Definition connection (s : Hook.t)
  : list WebSocket * option nat * list (nat * Z) * nat :=
  (Hook.sockets s, Hook.wsRef s, Hook.timers s, Hook.nextTimer s).

(** The hook of [demo_env] once its first socket is open and one message
    has arrived. *)
Definition streaming : Hook.t :=
  Hook.run demo_env (Hook.mounted demo_env)
           [Hook.SocketOpened 0; Hook.SocketMessage 0 4 "true"].

(** ** Further code of the same files

    The remaining actions of the store, the node handlers of [App.tsx],
    the flow endpoints of [api/client.ts], the calls the hook offers to its
    user, and the two components that use the hook and [updateNodeConfig]. *)

(** *** flowStore.ts: the other actions *)

Definition setNodes (nodes : list Node.t) (state : FlowState.t) : FlowState.t :=
  set_nodes nodes state.

Definition setEdges (edges : list Edge.t) (state : FlowState.t) : FlowState.t :=
  {| FlowState.currentFlowId := FlowState.currentFlowId state;
     FlowState.currentFlowName := FlowState.currentFlowName state;
     FlowState.currentFlowDescription := FlowState.currentFlowDescription state;
     FlowState.nodes := FlowState.nodes state;
     FlowState.edges := edges;
     FlowState.isLoadingFlows := FlowState.isLoadingFlows state;
     FlowState.currentExecution := FlowState.currentExecution state |}.

(** [description || ''] *)
Definition createNewFlow (name : string) (description : option string)
  (state : FlowState.t) : FlowState.t :=
  {| FlowState.currentFlowId := None;
     FlowState.currentFlowName := name;
     FlowState.currentFlowDescription := default "" description;
     FlowState.nodes := [];
     FlowState.edges := [];
     FlowState.isLoadingFlows := FlowState.isLoadingFlows state;
     FlowState.currentExecution := FlowState.currentExecution state |}.

(** *** App.tsx: deleting and duplicating a node

    [selectedNodeId] is the component's own state; the nodes are the
    store's. *)
Definition handleDeleteNode (nodeId : string) (store : FlowState.t)
  (selectedNodeId : option string) : FlowState.t * option string :=
  (setNodes (filter (λ node, Node.id node ≠ nodeId) (FlowState.nodes store))
            store,
   if decide (selectedNodeId = Some nodeId) then None else selectedNodeId).

(** [`${nodeToDuplicate.type}-${Date.now()}`]; [now] is the clock's reading
    in milliseconds. *)
Definition duplicate_id (node : Node.t) (now : Z) : string :=
  default "undefined" (Node.type node) +:+ "-" +:+ pretty now.

Definition duplicate_of (node : Node.t) (now : Z) : Node.t :=
  {| Node.id := duplicate_id node now;
     Node.type := Node.type node;
     Node.position := {| x := x (Node.position node) + 50;
                         y := y (Node.position node) + 50 |};
     Node.data := Node.data node |}.

(** [nodes.find(p)]: the first node that satisfies [p]. *)
Definition find_node (nodeId : string) (nodes : list Node.t) : option Node.t :=
  head (filter (λ node, Node.id node = nodeId) nodes).

Definition handleDuplicateNode (now : Z) (nodeId : string)
  (store : FlowState.t) : FlowState.t :=
  match find_node nodeId (FlowState.nodes store) with
  | Some nodeToDuplicate =>
      setNodes (FlowState.nodes store ++ [duplicate_of nodeToDuplicate now])%list
               store
  | None => store
  end.

(** *** api/client.ts: the flow endpoints, and [saveFlow] / [loadFlow] *)

Record FlowBody : Type := {
  body_name : option string;
  body_description : option string;
  body_tags : option (list string);
  body_definition : option (list Node.t * list Edge.t)
}.

Inductive ApiCall : Type :=
  | POST_flows (body : FlowBody)
  | PUT_flow (flowId : string) (body : FlowBody)
  | GET_flow (flowId : string)
  | GET_flows (limit offset : Z).

(** The argument of [flowAPI.create]: a flow definition together with a
    [definition] object whose [nodes] and [edges] may be absent. *)
Record CreateArg : Type := {
  arg_name : string;
  arg_description : option string;
  arg_tags : option (list string);
  arg_nodes : option (list Node.t);
  arg_edges : option (list Edge.t);
  arg_definition_nodes : option (list Node.t);
  arg_definition_edges : option (list Edge.t)
}.

(** [a || b || []] on arrays: an array is truthy even when empty. *)
Definition first_array {A : Type} (a b : option (list A)) : list A :=
  match a with
  | Some l => l
  | None => default [] b
  end.

Definition flowAPI_create (flow : CreateArg) : ApiCall :=
  POST_flows
    {| body_name := Some (arg_name flow);
       body_description := arg_description flow;
       body_tags := arg_tags flow;
       body_definition :=
         Some (first_array (arg_definition_nodes flow) (arg_nodes flow),
               first_array (arg_definition_edges flow) (arg_edges flow)) |}.

(** The [updates] of [flowAPI.update] are a [Partial<FlowDefinition>]. *)
Record UpdateArg : Type := {
  upd_name : option string;
  upd_description : option string;
  upd_tags : option (list string);
  upd_nodes : option (list Node.t);
  upd_edges : option (list Edge.t)
}.

Definition flowAPI_update (flowId : string) (updates : UpdateArg) : ApiCall :=
  PUT_flow flowId
    {| body_name := upd_name updates;
       body_description := upd_description updates;
       body_tags := upd_tags updates;
       body_definition :=
         match upd_nodes updates, upd_edges updates with
         | Some nodes, Some edges => Some (nodes, edges)
         | _, _ => None
         end |}.

Definition set_currentFlowId (flowId : option string) (state : FlowState.t)
  : FlowState.t :=
  {| FlowState.currentFlowId := flowId;
     FlowState.currentFlowName := FlowState.currentFlowName state;
     FlowState.currentFlowDescription := FlowState.currentFlowDescription state;
     FlowState.nodes := FlowState.nodes state;
     FlowState.edges := FlowState.edges state;
     FlowState.isLoadingFlows := FlowState.isLoadingFlows state;
     FlowState.currentExecution := FlowState.currentExecution state |}.

Definition set_isLoadingFlows (b : bool) (state : FlowState.t) : FlowState.t :=
  {| FlowState.currentFlowId := FlowState.currentFlowId state;
     FlowState.currentFlowName := FlowState.currentFlowName state;
     FlowState.currentFlowDescription := FlowState.currentFlowDescription state;
     FlowState.nodes := FlowState.nodes state;
     FlowState.edges := FlowState.edges state;
     FlowState.isLoadingFlows := b;
     FlowState.currentExecution := FlowState.currentExecution state |}.

(** [saveFlow].  [backend] answers a request with the [id] of the flow in
    its response or rejects it.  The result is the value the promise
    resolves to ([None]: it rejects, after logging), the store, and the
    requests issued; after a success [loadFlowsList] has been started, which
    sets [isLoadingFlows] and requests the list without being awaited. *)
Definition saveFlow (backend : ApiCall → string + ApiError)
  (state : FlowState.t) : option string * FlowState.t * list ApiCall :=
  let name := FlowState.currentFlowName state in
  let description := FlowState.currentFlowDescription state in
  let nodes := FlowState.nodes state in
  let edges := FlowState.edges state in
  match FlowState.currentFlowId state with
  | None | Some "" =>
      let call :=
        flowAPI_create
          {| arg_name := name; arg_description := Some description;
             arg_tags := None;
             arg_nodes := Some nodes; arg_edges := Some edges;
             arg_definition_nodes := Some nodes;
             arg_definition_edges := Some edges |} in
      match backend call with
      | inl flowId =>
          (Some flowId,
           set_isLoadingFlows true (set_currentFlowId (Some flowId) state),
           [call; GET_flows 100 0])
      | inr _ => (None, state, [call])
      end
  | Some currentFlowId =>
      let call :=
        flowAPI_update currentFlowId
          {| upd_name := Some name; upd_description := Some description;
             upd_tags := None;
             upd_nodes := Some nodes; upd_edges := Some edges |} in
      match backend call with
      | inl flowId =>
          (Some flowId, set_isLoadingFlows true state, [call; GET_flows 100 0])
      | inr _ => (None, state, [call])
      end
  end.

(** The flow in the response of [flowAPI.get]; a response without a
    [definition] makes [loadFlow] reject and is not one of these. *)
Record FlowResponse : Type := {
  resp_id : string;
  resp_name : string;
  resp_description : option string;
  resp_nodes : option (list Node.t);
  resp_edges : option (list Edge.t)
}.

(** [loadFlow] once [flowAPI.get] has answered with [flow]. *)
Definition loadFlow (flow : FlowResponse) (state : FlowState.t) : FlowState.t :=
  {| FlowState.currentFlowId := Some (resp_id flow);
     FlowState.currentFlowName := resp_name flow;
     FlowState.currentFlowDescription :=
       match resp_description flow with
       | Some d => d
       | None => ""
       end;
     FlowState.nodes := default [] (resp_nodes flow);
     FlowState.edges := default [] (resp_edges flow);
     FlowState.isLoadingFlows := FlowState.isLoadingFlows state;
     FlowState.currentExecution := FlowState.currentExecution state |}.

(** A backend that stores what it is sent: the flow it returns for [flowId]
    after having accepted [body]. *)
Definition stored_flow (flowId : string) (body : FlowBody) : FlowResponse :=
  {| resp_id := flowId;
     resp_name := default "" (body_name body);
     resp_description := body_description body;
     resp_nodes := fst <$> body_definition body;
     resp_edges := snd <$> body_definition body |}.

Definition body_of (call : ApiCall) : option FlowBody :=
  match call with
  | POST_flows body | PUT_flow _ body => Some body
  | _ => None
  end.

(** *** useWebSocket.ts: what the user of the hook can call *)

(** [send(data)] with [text] the result of [JSON.stringify(data)]: the
    frame goes out on the current socket if that socket is open, and is
    dropped otherwise. *)
Definition send (text : string) (s : Hook.t) : Hook.t :=
  if Hook.current_is_open s then
    match Hook.wsRef s with
    | Some i =>
        Hook.set_sockets
          (alter (λ ws, {| url := url ws; readyState := readyState ws;
                           sent := (sent ws ++ [text])%list |})
                 i (Hook.sockets s)) s
    | None => s
    end
  else s.

(** What can happen to a mounted hook: an event of the environment, or a
    call by the component that uses the hook ([connect] runs again when an
    effect re-runs). *)
Inductive Action : Type :=
  | Happens (ev : Hook.Event)
  | CallConnect
  | CallDisconnect
  | CallSend (text : string).

Definition act (env : Env) (s : Hook.t) (a : Action) : Hook.t :=
  match a with
  | Happens ev => Hook.step env s ev
  | CallConnect => Hook.connect env s
  | CallDisconnect => Hook.disconnect s
  | CallSend text => send text s
  end.

Definition run_actions (env : Env) (s : Hook.t) (actions : list Action)
  : Hook.t :=
  foldl (act env) s actions.

(** One failed attempt: the current socket closes and the timer that its
    close handler scheduled fires. *)
Definition failed_attempt (env : Env) (s : Hook.t) : Hook.t :=
  match Hook.wsRef s with
  | Some i => Hook.timer_fires env (Hook.nextTimer s) (Hook.ws_onclose env i s)
  | None => s
  end.

(** *** ExecutionMonitor.tsx: the [onMessage] callback it gives the hook

    [v.key] for a key that no built-in prototype defines: a [TypeError] on
    [undefined] and [null], the own property of an object, [undefined] on
    the other primitives. *)
Definition member (v : JsValue) (key : string) : Hook.outcome JsValue :=
  match v with
  | VUndefined | VNull => Hook.Thrown "TypeError"
  | VObj fields => Hook.Returned (default VUndefined (fields !! key))
  | _ => Hook.Returned VUndefined
  end.

(** [`[${data.level}] ${data.message}`] *)
Definition log_line (level message : JsValue) : string :=
  "[" +:+ ToString level +:+ "] " +:+ ToString message.

(** [v === text] for a string literal [text]. *)
Definition strictly_equals (v : JsValue) (text : string) : bool :=
  match v with
  | VStr s => String.eqb s text
  | _ => false
  end.

(** [(data) => { if (data.type === 'log') setLogs(prev => [...prev, line]) }] *)
Definition monitor_onMessage (data : JsValue) (logs : list string)
  : Hook.outcome (list string) :=
  match member data "type" with
  | Hook.Thrown e => Hook.Thrown e
  | Hook.Returned type =>
      if strictly_equals type "log" then
        match member data "level", member data "message" with
        | Hook.Returned level, Hook.Returned message =>
            Hook.Returned (logs ++ [log_line level message])%list
        | Hook.Thrown e, _ | _, Hook.Thrown e => Hook.Thrown e
        end
      else Hook.Returned logs
  end.

(** The [logs] of the monitor after the hook has passed it the values
    [delivered], one call each; a call that throws leaves them as they
    are. *)
Definition monitor_logs (delivered : list JsValue) : list string :=
  foldl (λ logs data,
           match monitor_onMessage data logs with
           | Hook.Returned logs' => logs'
           | Hook.Thrown _ => logs
           end)
        [] delivered.


(** A message of kind [log]. *)
Definition is_log (data : JsValue) : Prop :=
  ∃ fields, data = VObj fields ∧ fields !! "type" = Some (VStr "log").

#[global] Instance is_log_dec data : Decision (is_log data).
Proof.
  destruct data as [| | | | |fields];
    try (right; intros (f & Hf & _); discriminate).
  destruct (fields !! "type") as [[| | | |s|]|] eqn:E;
    try (right; intros (f & [= <-] & Hf); congruence).
  destruct (decide (s = "log")) as [->|Hne].
  - left. by exists fields.
  - right. intros (f & [= <-] & Hf). congruence.
Defined.

Definition log_of (data : JsValue) : string :=
  match data with
  | VObj fields =>
      log_line (default VUndefined (fields !! "level"))
               (default VUndefined (fields !! "message"))
  | _ => ""
  end.

(** *** PropertyEditor.tsx: the form behind [updateNodeConfig]

    [config] is the component's prop; [onConfigChange] is the store's
    [updateNodeConfig], as [App] passes it through [RightSidebar]. *)
Module PropertyEditor.
Record t : Type := {
  formData : gmap string JsValue;
  isDirty : bool
}.

Definition init (config : gmap string JsValue) : t :=
  {| formData := config; isDirty := false |}.

Definition handleFieldChange (s : t) (change : string * JsValue) : t :=
  {| formData := <[ change.1 := change.2 ]> (formData s); isDirty := true |}.

Definition handleApply (nodeId : string) (store : FlowState.t) (s : t)
  : FlowState.t * t :=
  (updateNodeConfig nodeId (formData s) store,
   {| formData := formData s; isDirty := false |}).

Definition handleReset (config : gmap string JsValue) (s : t) : t :=
  {| formData := config; isDirty := false |}.
End PropertyEditor.

(** The last value a list of changes gives to [name]. *)
Definition last_change (name : string) (changes : list (string * JsValue))
  : option JsValue :=
  snd <$> last (filter (λ c, c.1 = name) changes).

(** *** Header.tsx: [formatLastSaved]

    [now] and [date] are clock readings in whole milliseconds (below 2^53,
    where [Math.floor] of the quotient is the integer quotient);
    [localeDate] is what [date.toLocaleDateString()] prints. *)
Definition formatLastSaved (localeDate : string) (now : Z) (date : option Z)
  : string :=
  match date with
  | None => "Never"
  | Some date =>
      let diff := now - date in
      let seconds := diff / 1000 in
      let minutes := seconds / 60 in
      let hours := minutes / 60 in
      if seconds <? 60 then "Just now"
      else if minutes <? 60 then pretty minutes +:+ "m ago"
      else if hours <? 24 then pretty hours +:+ "h ago"
      else localeDate
  end.

(** An edge with its direction reversed. *)
Definition reverse_edge (edge : Edge.t) : Edge.t :=
  {| Edge.id := Edge.id edge;
     Edge.source := Edge.target edge;
     Edge.target := Edge.source edge |}.

(** A store with the three sample agents, wired [a -> b -> c]. *)
Definition chain_store : FlowState.t :=
  setEdges [mk_edge "e1" "a" "b"; mk_edge "e2" "b" "c"]
           (setNodes abc saved_empty_flow).

(** What [updateNodeConfig] does to one node. *)
Definition reconfigure (nodeId : string) (config : gmap string JsValue)
  (node : Node.t) : Node.t :=
  if String.eqb (Node.id node) nodeId then with_config config node else node.

(** A backend that accepts every request: it names a new flow ["flow-9"]
    and keeps the id of a flow it updates. *)
Definition naming_backend (call : ApiCall) : string + ApiError :=
  match call with
  | PUT_flow flowId _ => inl flowId
  | _ => inl "flow-9"
  end.

(** A store with the chain that has not been saved yet. *)
Definition unsaved_chain : FlowState.t := set_currentFlowId None chain_store.

Definition is_POST (call : ApiCall) : Prop :=
  match call with POST_flows _ => True | _ => False end.

(** What every state of a mounted hook satisfies: all its sockets were
    opened to the URL of its execution; every pending timer is a reconnect
    timer of 3000 ms with an id of its own, handed out earlier; the current
    socket and the recorded timer are ones the hook has created. *)
Definition hook_invariant (env : Env) (s : Hook.t) : Prop :=
  Forall (λ ws, Some (url ws) = wsUrl env <$> executionId env) (Hook.sockets s)
  ∧ Forall (λ t, (t.1 < Hook.nextTimer s)%nat ∧ t.2 = 3000) (Hook.timers s)
  ∧ NoDup (Hook.timers s).*1
  ∧ (∀ i, Hook.wsRef s = Some i → (i < length (Hook.sockets s))%nat)
  ∧ (∀ t, Hook.reconnectTimeoutRef s = Some t → (t < Hook.nextTimer s)%nat).

(** The hook is given no execution: [executionId] is [null] or empty. *)
Definition no_execution (env : Env) : Prop :=
  executionId env = None ∨ executionId env = Some "".

(** The socket a (re)connect creates. *)
Definition fresh_socket (env : Env) (executionId : string) : WebSocket :=
  {| url := wsUrl env executionId; readyState := CONNECTING; sent := [] |}.

(** * Properties *)

(** ** Strings *)

Lemma ends_with_refl (suffix : string) : ends_with suffix suffix = true.
Proof. destruct suffix; cbn [ends_with]; by rewrite String.eqb_refl. Qed.

Lemma ends_with_app_r (suffix p s : string) :
  ends_with suffix s = true → ends_with suffix (p +:+ s) = true.
Proof.
  intros H. induction p as [|c p IH]; [done|].
  change (String c p +:+ s) with (String c (p +:+ s)).
  cbn [ends_with]. rewrite IH. apply orb_true_r.
Qed.

Lemma ends_with_inv (suffix s : string) :
  ends_with suffix s = true → ∃ p, s = p +:+ suffix.
Proof.
  induction s as [|c s IH]; cbn [ends_with].
  - rewrite orb_false_r. intros <-%String.eqb_eq. by exists "".
  - intros [H%String.eqb_eq | H]%orb_true_iff.
    + exists "". by subst.
    + destruct (IH H) as [p ->]. by exists (String c p).
Qed.

Lemma last_char_app_r (p s : string) (c : Ascii.ascii) :
  last_char s = Some c → last_char (p +:+ s) = Some c.
Proof.
  intros H. induction p as [|d p IH]; [done|].
  change (last_char (String d (p +:+ s)) = Some c). cbn [last_char].
  destruct (p +:+ s); [done | exact IH].
Qed.

Lemma ends_with_last_char (suffix s : string) (c : Ascii.ascii) :
  last_char suffix = Some c → ends_with suffix s = true → last_char s = Some c.
Proof.
  intros Hc [p ->]%ends_with_inv. by apply last_char_app_r.
Qed.

(** ** The shape of what [validateFlow] returns *)

Lemma foldl_push_map {A B : Type} (f : B → A) (acc : list A) (l : list B) :
  foldl (λ errs b, push errs (f b)) acc l = (acc ++ map f l)%list.
Proof.
  revert acc. induction l as [|b l IH]; intros acc; simpl.
  - by rewrite app_nil_r.
  - rewrite IH. unfold push. by rewrite <- app_assoc.
Qed.

Lemma check_node_app (errs : list ValidationError.t) (node : Node.t) :
  check_node errs node = (errs ++ node_findings node)%list.
Proof.
  unfold check_node, node_findings, push.
  destruct (no_agent_type node), (negb (hasConfig node)); simpl;
    rewrite ?app_nil_r, <- ?app_assoc; done.
Qed.

Lemma foldl_check_node (errs : list ValidationError.t) (nodes : list Node.t) :
  foldl check_node errs nodes = (errs ++ (nodes ≫= node_findings))%list.
Proof.
  revert errs. induction nodes as [|n nodes IH]; intros errs; simpl.
  - by rewrite app_nil_r.
  - rewrite IH, check_node_app. by rewrite <- app_assoc.
Qed.

Lemma length_eqb_0 {A : Type} (l : list A) :
  (length l =? 0)%nat = bool_decide (l = []).
Proof. by destruct l. Qed.

Lemma validateFlow_errors (nodes : list Node.t) (edges : list Edge.t) :
  nodes ≠ [] →
  ValidationResult.errors (validateFlow nodes edges)
  = ((nodes ≫= node_findings) ++ not_connected_findings nodes edges)%list.
Proof.
  intros Hne. unfold validateFlow, not_connected_findings.
  rewrite length_eqb_0, bool_decide_eq_false_2 by done.
  cbn [ValidationResult.errors]. rewrite foldl_check_node. simpl.
  destruct (_ && _); [|by rewrite app_nil_r].
  by rewrite foldl_push_map.
Qed.

Lemma validateFlow_isValid (nodes : list Node.t) (edges : list Edge.t) :
  nodes ≠ [] →
  ValidationResult.isValid (validateFlow nodes edges)
  = negb (existsb (λ e, bool_decide (ValidationError.type e = error))
                  (ValidationResult.errors (validateFlow nodes edges))).
Proof.
  intros Hne. unfold validateFlow.
  rewrite length_eqb_0, bool_decide_eq_false_2 by done. done.
Qed.

Lemma validateFlow_nil (edges : list Edge.t) :
  validateFlow [] edges
  = {| ValidationResult.isValid := false;
       ValidationResult.errors := [empty_flow_error] |}.
Proof. done. Qed.

Example validate_single_bare_node :
  validateFlow [bare "n1"] []
  = {| ValidationResult.isValid := false;
       ValidationResult.errors :=
         [ {| ValidationError.type := error;
              ValidationError.message := "Node n1 has no agent type";
              ValidationError.nodeId := Some "n1" |};
           {| ValidationError.type := warning;
              ValidationError.message :=
                "Node n1 (undefined) has no configuration";
              ValidationError.nodeId := Some "n1" |} ] |}.
Proof. vm_compute. reflexivity. Qed.

Example validate_isolated_node :
  validateFlow abc edge_ab
  = {| ValidationResult.isValid := true;
       ValidationResult.errors :=
         [ {| ValidationError.type := warning;
              ValidationError.message :=
                "Node c (analysis) is not connected to any other nodes";
              ValidationError.nodeId := Some "c" |} ] |}.
Proof. vm_compute. reflexivity. Qed.

(** ** Telling the findings apart *)

Ltac message_end :=
  cbn [ValidationError.message agent_type_error config_warning
       not_connected_warning];
  repeat (apply last_char_app_r || apply ends_with_app_r);
  vm_compute; reflexivity.

Lemma config_warning_is (node : Node.t) :
  is_config_warning (config_warning node).
Proof. split; [done|]. message_end. Qed.

Lemma not_connected_warning_is (node : Node.t) :
  is_not_connected_warning (not_connected_warning node).
Proof. split; [done|]. message_end. Qed.

Lemma config_warning_not_nc (node : Node.t) :
  ¬ is_not_connected_warning (config_warning node).
Proof.
  intros [_ H].
  apply (ends_with_last_char _ _ "s"%char) in H; [|done].
  assert (last_char (ValidationError.message (config_warning node))
          = Some "n"%char) as E by message_end.
  congruence.
Qed.

Lemma not_connected_warning_not_config (node : Node.t) :
  ¬ is_config_warning (not_connected_warning node).
Proof.
  intros [_ H].
  apply (ends_with_last_char _ _ "n"%char) in H; [|done].
  assert (last_char (ValidationError.message (not_connected_warning node))
          = Some "s"%char) as E by message_end.
  congruence.
Qed.

Lemma hasConfig_count (node : Node.t) :
  hasConfig node = (0 <? config_entry_count node)%nat.
Proof.
  unfold hasConfig, config_entry_count.
  destruct (data_get node "config") as [| |[]|z|s|f]; simpl;
    rewrite ?andb_false_r; try done.
  destruct s; done.
Qed.

Lemma missing_or_empty_no_agent_type (node : Node.t) :
  missing_or_empty_type node → no_agent_type node = true.
Proof. unfold no_agent_type. by intros [-> | ->]. Qed.

Lemma filter_agent_type_error (P : ValidationError.t → Prop)
  `{!∀ e, Decision (P e)} (node : Node.t) :
  ¬ P (agent_type_error node) →
  filter P (if no_agent_type node then [agent_type_error node] else []) = [].
Proof.
  intros HP. destruct (no_agent_type node); [|done].
  by rewrite filter_cons_False.
Qed.

Lemma node_findings_errors (node : Node.t) :
  filter is_error (node_findings node)
  = if no_agent_type node then [agent_type_error node] else [].
Proof.
  unfold node_findings.
  destruct (no_agent_type node), (negb (hasConfig node)); done.
Qed.

Lemma node_findings_config (node : Node.t) :
  filter is_config_warning (node_findings node)
  = if hasConfig node then [] else [config_warning node].
Proof.
  unfold node_findings. rewrite filter_app.
  rewrite (filter_agent_type_error is_config_warning) by (by intros [? _]).
  destruct (hasConfig node); simpl; [done|].
  rewrite filter_cons_True by apply config_warning_is. done.
Qed.

Lemma node_findings_not_connected (node : Node.t) :
  filter is_not_connected_warning (node_findings node) = [].
Proof.
  unfold node_findings. rewrite filter_app.
  rewrite (filter_agent_type_error is_not_connected_warning) by (by intros [? _]).
  destruct (negb (hasConfig node)); simpl; [|done].
  rewrite filter_cons_False by apply config_warning_not_nc. done.
Qed.

Lemma loop_errors (nodes : list Node.t) :
  filter is_error (nodes ≫= node_findings)
  = map agent_type_error (filter (λ n, no_agent_type n = true) nodes).
Proof.
  induction nodes as [|n nodes IH]; [done|].
  cbn [mbind list_bind]. rewrite filter_app, IH, node_findings_errors, filter_cons.
  destruct (decide (no_agent_type n = true)) as [->|H]; [done|].
  by apply not_true_is_false in H as ->.
Qed.

Lemma loop_config_warnings (nodes : list Node.t) :
  filter is_config_warning (nodes ≫= node_findings)
  = map config_warning (filter (λ n, config_entry_count n = 0%nat) nodes).
Proof.
  induction nodes as [|n nodes IH]; [done|].
  cbn [mbind list_bind].
  rewrite filter_app, IH, node_findings_config, filter_cons, hasConfig_count.
  destruct (decide (config_entry_count n = 0%nat)) as [->|H]; [done|].
  destruct (config_entry_count n); done.
Qed.

Lemma loop_not_connected (nodes : list Node.t) :
  filter is_not_connected_warning (nodes ≫= node_findings) = [].
Proof.
  induction nodes as [|n nodes IH]; [done|].
  cbn [mbind list_bind].
  by rewrite filter_app, IH, node_findings_not_connected.
Qed.

Lemma filter_not_connected_map (P : ValidationError.t → Prop)
  `{!∀ e, Decision (P e)} (l : list Node.t) :
  (∀ n, ¬ P (not_connected_warning n)) →
  filter P (map not_connected_warning l) = [].
Proof.
  intros HP. induction l as [|n l IH]; [done|].
  simpl. by rewrite filter_cons_False.
Qed.

Lemma filter_not_connected_all (l : list Node.t) :
  filter is_not_connected_warning (map not_connected_warning l)
  = map not_connected_warning l.
Proof.
  induction l as [|n l IH]; [done|].
  simpl. rewrite filter_cons_True by apply not_connected_warning_is.
  by rewrite IH.
Qed.

Lemma not_connected_findings_map (nodes : list Node.t) (edges : list Edge.t) :
  ∃ l, not_connected_findings nodes edges = map not_connected_warning l.
Proof.
  unfold not_connected_findings. destruct (_ && _); [by eexists|by exists []].
Qed.

Lemma existsb_error_false (errs : list ValidationError.t) :
  existsb (λ e, bool_decide (ValidationError.type e = error)) errs = false
  ↔ ∀ e, e ∈ errs → ValidationError.type e ≠ error.
Proof.
  induction errs as [|e errs IH]; simpl.
  - split; [|done]. intros _ e He. by apply not_elem_of_nil in He.
  - rewrite orb_false_iff, IH, bool_decide_eq_false. split.
    + intros [He Hall] e' [->|Hin]%elem_of_cons; auto.
    + intros Hall. split; [|intros e' Hin]; apply Hall, elem_of_cons; auto.
Qed.

Lemma isValid_true_iff (nodes : list Node.t) (edges : list Edge.t) :
  ValidationResult.isValid (validateFlow nodes edges) = true
  ↔ ∀ e, e ∈ ValidationResult.errors (validateFlow nodes edges) →
         ValidationError.type e ≠ error.
Proof.
  destruct (decide (nodes = [])) as [->|Hne].
  - rewrite validateFlow_nil. simpl. split; [done|].
    intros H. exfalso.
    apply (H empty_flow_error); [by apply list_elem_of_singleton|done].
  - rewrite validateFlow_isValid, negb_true_iff by done.
    apply existsb_error_false.
Qed.

(** ** C4 and C5: the verdict *)

(** C4. For every graph, [isValid] is [true] exactly when the returned
    [errors] hold no entry of severity [error]; if every entry is a
    [warning], [isValid] is [true]. *)
Theorem C4_isValid_iff_no_error (nodes : list Node.t) (edges : list Edge.t) :
  (ValidationResult.isValid (validateFlow nodes edges) = true
   ↔ ∀ e, e ∈ ValidationResult.errors (validateFlow nodes edges) →
          ValidationError.type e ≠ error)
  ∧ ((∀ e, e ∈ ValidationResult.errors (validateFlow nodes edges) →
           ValidationError.type e = warning) →
     ValidationResult.isValid (validateFlow nodes edges) = true).
Proof.
  pose proof (isValid_true_iff nodes edges) as Hiff.
  split; [exact Hiff|].
  intros Hw. apply Hiff. intros e He. rewrite (Hw e He). done.
Qed.

(** C5, as the code has it. For every graph with no node, whatever its
    edges, the result is [isValid = false] with exactly one entry: an
    [error] without node id whose message is "Flow must contain at least one
    node" (capital F); no other check contributes. *)
Theorem C5_empty_flow (edges : list Edge.t) :
  validateFlow [] edges
  = {| ValidationResult.isValid := false;
       ValidationResult.errors :=
         [ {| ValidationError.type := error;
              ValidationError.message := "Flow must contain at least one node";
              ValidationError.nodeId := None |} ] |}.
Proof.
  unfold validateFlow. cbn [length Nat.eqb push app]. reflexivity.
Qed.

(** C5, counterexample. The message is not the one the claim quotes: the
    result for the empty graph differs from the claimed one. *)
Lemma C5_message_differs :
  validateFlow [] []
  ≠ {| ValidationResult.isValid := false;
       ValidationResult.errors :=
         [ {| ValidationError.type := error;
              ValidationError.message := spec_empty_flow_message;
              ValidationError.nodeId := None |} ] |}.
Proof. rewrite validateFlow_nil. unfold spec_empty_flow_message. intros H. discriminate H. Qed.

(** ** C6: every finding is collected *)

Lemma not_connected_findings_no (P : ValidationError.t → Prop)
  `{!∀ e, Decision (P e)} (nodes : list Node.t) (edges : list Edge.t) :
  (∀ n, ¬ P (not_connected_warning n)) →
  filter P (not_connected_findings nodes edges) = [].
Proof.
  intros HP. destruct (not_connected_findings_map nodes edges) as [l ->].
  by apply filter_not_connected_map.
Qed.

Lemma errors_of_severity_error (nodes : list Node.t) (edges : list Edge.t) :
  nodes ≠ [] →
  filter is_error (ValidationResult.errors (validateFlow nodes edges))
  = map agent_type_error (filter (λ n, no_agent_type n = true) nodes).
Proof.
  intros Hne. rewrite validateFlow_errors, filter_app, loop_errors by done.
  rewrite not_connected_findings_no by (by intros n Hn).
  by rewrite app_nil_r.
Qed.

Lemma config_warnings_of_result (nodes : list Node.t) (edges : list Edge.t) :
  nodes ≠ [] →
  filter is_config_warning (ValidationResult.errors (validateFlow nodes edges))
  = map config_warning (filter (λ n, config_entry_count n = 0%nat) nodes).
Proof.
  intros Hne.
  rewrite validateFlow_errors, filter_app, loop_config_warnings by done.
  rewrite not_connected_findings_no
    by apply not_connected_warning_not_config.
  by rewrite app_nil_r.
Qed.

(** C6. For every graph with at least one node, nothing is cut short: the
    entries of severity [error] are, in node order, one "has no agent type"
    entry for each node whose agent type is falsy, and the "has no
    configuration" warnings are, in node order, one for each node with no
    configuration entry.  In particular a node whose agent type is missing
    or empty has its error entry in the result, and a node without
    configuration entries has its warning there. *)
Theorem C6_all_findings_collected (nodes : list Node.t) (edges : list Edge.t) :
  nodes ≠ [] →
  filter is_error (ValidationResult.errors (validateFlow nodes edges))
  = map agent_type_error (filter (λ n, no_agent_type n = true) nodes)
  ∧ filter is_config_warning (ValidationResult.errors (validateFlow nodes edges))
    = map config_warning (filter (λ n, config_entry_count n = 0%nat) nodes)
  ∧ (∀ n, n ∈ nodes → missing_or_empty_type n →
          agent_type_error n
            ∈ ValidationResult.errors (validateFlow nodes edges))
  ∧ (∀ n, n ∈ nodes → config_entry_count n = 0%nat →
          config_warning n
            ∈ ValidationResult.errors (validateFlow nodes edges)).
Proof.
  intros Hne.
  pose proof (errors_of_severity_error nodes edges Hne) as He.
  pose proof (config_warnings_of_result nodes edges Hne) as Hc.
  repeat split; [exact He | exact Hc | |].
  - intros n Hn Hty.
    apply (list_elem_of_filter is_error). rewrite He.
    apply list_elem_of_fmap_2, list_elem_of_filter.
    split; [by apply missing_or_empty_no_agent_type | done].
  - intros n Hn Hcfg.
    apply (list_elem_of_filter is_config_warning). rewrite Hc.
    apply list_elem_of_fmap_2, list_elem_of_filter. done.
Qed.

(** A node without data, a configured agent and a node whose type is the
    empty string: the first and the third are reported. *)
Lemma C6_all_findings_collected_witness :
  [bare "n1"; agent "n2" "risk"; typed_only "n3" ""] ≠ []
  ∧ filter is_error
      (ValidationResult.errors
         (validateFlow [bare "n1"; agent "n2" "risk"; typed_only "n3" ""] []))
    = [agent_type_error (bare "n1"); agent_type_error (typed_only "n3" "")].
Proof.
  split; [done|].
  rewrite (proj1 (C6_all_findings_collected
                    [bare "n1"; agent "n2" "risk"; typed_only "n3" ""] []
                    ltac:(done))).
  vm_compute. reflexivity.
Defined.

(** ** C2: nodes that no edge touches *)

Lemma elem_of_foldl_add_edge_ends (i : string) (acc : gset string)
  (edges : list Edge.t) :
  i ∈ foldl add_edge_ends acc edges
  ↔ i ∈ acc ∨ ∃ e, e ∈ edges ∧ (Edge.source e = i ∨ Edge.target e = i).
Proof.
  revert acc. induction edges as [|e edges IH]; intros acc; simpl.
  - split; [auto|]. intros [?|(e & He & _)]; [done|].
    by apply not_elem_of_nil in He.
  - rewrite IH. unfold add_edge_ends. split.
    + intros [Hi|(e' & He' & Hi)].
      * apply elem_of_union in Hi as [Hi%elem_of_singleton|Hi].
        { right. exists e. split; [apply elem_of_cons|]; auto. }
        apply elem_of_union in Hi as [Hi%elem_of_singleton|Hi]; [|auto].
        right. exists e. split; [apply elem_of_cons|]; auto.
      * right. exists e'. split; [apply elem_of_cons|]; auto.
    + intros [Hi|(e' & [->|He']%elem_of_cons & Hi)].
      * left. apply elem_of_union. right. apply elem_of_union. by right.
      * left. apply elem_of_union. destruct Hi as [<-|<-].
        { right. apply elem_of_union. left. by apply elem_of_singleton. }
        left. by apply elem_of_singleton.
      * right. eauto.
Qed.

Lemma elem_of_connected_ids (i : string) (edges : list Edge.t) :
  i ∈ connected_ids edges
  ↔ ∃ e, e ∈ edges ∧ (Edge.source e = i ∨ Edge.target e = i).
Proof.
  unfold connected_ids. rewrite elem_of_foldl_add_edge_ends.
  split; [intros [H|H]; [by apply not_elem_of_empty in H|done] | auto].
Qed.

Lemma not_connected_iff_untouched (edges : list Edge.t) (node : Node.t) :
  Node.id node ∉ connected_ids edges ↔ untouched edges node.
Proof.
  unfold untouched. rewrite elem_of_connected_ids, Forall_forall. split.
  - intros H e He. split; intros Heq; apply H; eauto.
  - intros H (e & He & [Heq|Heq]); destruct (H e He); done.
Qed.

Lemma filter_none {A : Type} (P : A → Prop) `{!∀ x, Decision (P x)}
  (l : list A) :
  (∀ x, x ∈ l → ¬ P x) → filter P l = [].
Proof.
  intros HP. induction l as [|x l IH]; [done|].
  rewrite filter_cons_False by (apply HP, elem_of_cons; auto).
  apply IH. intros y Hy. apply HP, elem_of_cons. auto.
Qed.

(** The warnings of the disconnected-node check, whatever the input: the
    untouched nodes when the guard [connectedNodeIds.size < nodes.length]
    lets the check run, none otherwise. *)
Lemma not_connected_warnings_of_result (nodes : list Node.t)
  (edges : list Edge.t) :
  nodes ≠ [] →
  filter is_not_connected_warning
         (ValidationResult.errors (validateFlow nodes edges))
  = if (1 <? length nodes)%nat
       && (size (connected_ids edges) <? length nodes)%nat
    then map not_connected_warning (filter (untouched edges) nodes)
    else [].
Proof.
  intros Hne. rewrite validateFlow_errors, filter_app, loop_not_connected by done.
  unfold not_connected_findings. simpl. destruct (_ && _); [|done].
  rewrite filter_not_connected_all. f_equal.
  apply list_filter_iff. intros n. apply not_connected_iff_untouched.
Qed.

(** On a well-formed graph the guard only skips the check when there is
    nothing to report. *)
Lemma guard_closed_all_touched (nodes : list Node.t) (edges : list Edge.t) :
  unique_ids nodes → endpoints_exist nodes edges →
  (length nodes ≤ size (connected_ids edges))%nat →
  filter (untouched edges) nodes = [].
Proof.
  intros Hnd Hex Hsz.
  assert (connected_ids edges ⊆ list_to_set (map Node.id nodes)) as Hsub.
  { intros i (e & He & Hi)%elem_of_connected_ids.
    apply elem_of_list_to_set.
    unfold endpoints_exist in Hex. rewrite Forall_forall in Hex.
    destruct (Hex e He) as [Hs Ht]. by destruct Hi as [<-|<-]. }
  assert (connected_ids edges = list_to_set (map Node.id nodes)) as Heq.
  { apply set_subseteq_size_eq; [done|].
    rewrite size_list_to_set by done. by rewrite length_map. }
  apply filter_none. intros n Hn Hun.
  apply not_connected_iff_untouched in Hun. apply Hun.
  rewrite Heq. apply elem_of_list_to_set.
  by apply (list_elem_of_fmap_2 Node.id).
Qed.

Lemma isValid_agent_types (nodes : list Node.t) (edges : list Edge.t) :
  nodes ≠ [] →
  ValidationResult.isValid (validateFlow nodes edges)
  = forallb (λ n, negb (no_agent_type n)) nodes.
Proof.
  intros Hne. apply eq_true_iff_eq.
  rewrite isValid_true_iff, forallb_forall. split.
  - intros H n Hn%list_elem_of_In. apply negb_true_iff.
    destruct (no_agent_type n) eqn:E; [|done]. exfalso.
    apply (H (agent_type_error n)); [|done].
    apply (list_elem_of_filter is_error).
    rewrite errors_of_severity_error by done.
    apply list_elem_of_fmap_2, list_elem_of_filter. done.
  - intros H e He Herr.
    assert (e ∈ filter is_error
                (ValidationResult.errors (validateFlow nodes edges))) as Hin
      by (by apply list_elem_of_filter).
    rewrite errors_of_severity_error in Hin by done.
    apply list_elem_of_fmap in Hin as (n & _ & [Hty Hn]%list_elem_of_filter).
    apply list_elem_of_In, H in Hn. rewrite Hty in Hn. done.
Qed.




(** ** C3: no cycle detection *)

Lemma nonempty_agent_type_truthy (node : Node.t) :
  nonempty_agent_type node → no_agent_type node = false.
Proof.
  intros (s & Hs & Hne). unfold no_agent_type. rewrite Hs. simpl.
  destruct s; done.
Qed.

Lemma elem_of_node_findings (e : ValidationError.t) (node : Node.t) :
  e ∈ node_findings node →
  (no_agent_type node = true ∧ e = agent_type_error node)
  ∨ e = config_warning node.
Proof.
  unfold node_findings. intros [H|H]%elem_of_app.
  - destruct (no_agent_type node); [|by apply not_elem_of_nil in H].
    apply list_elem_of_singleton in H. auto.
  - destruct (negb (hasConfig node)); [|by apply not_elem_of_nil in H].
    apply list_elem_of_singleton in H. auto.
Qed.

Lemma elem_of_not_connected_findings (e : ValidationError.t)
  (nodes : list Node.t) (edges : list Edge.t) :
  e ∈ not_connected_findings nodes edges →
  ∃ n, n ∈ nodes ∧ e = not_connected_warning n.
Proof.
  unfold not_connected_findings.
  destruct (_ && _); [|intros H; by apply not_elem_of_nil in H].
  intros (n & -> & [_ Hn]%list_elem_of_filter)%list_elem_of_fmap. eauto.
Qed.

(** The result reads the edges only through the set of their ends. *)
Lemma validateFlow_edge_ends (nodes : list Node.t) (edges edges' : list Edge.t) :
  connected_ids edges' = connected_ids edges →
  validateFlow nodes edges' = validateFlow nodes edges.
Proof. intros H. unfold validateFlow. by rewrite H. Qed.

(** C3. For every graph with at least one node in which every node has a
    non-empty agent type, [isValid] is [true] whatever the edges are, cyclic
    or not; every returned entry is a "has no configuration" or a "not
    connected" warning about one of the nodes, so no entry is about a cycle;
    and the result is the same for any other edge list with the same set of
    edge ends, which the direction of the edges does not enter. *)
Theorem C3_no_cycle_detection (nodes : list Node.t) (edges : list Edge.t) :
  nodes ≠ [] →
  (∀ n, n ∈ nodes → nonempty_agent_type n) →
  ValidationResult.isValid (validateFlow nodes edges) = true
  ∧ (∀ e, e ∈ ValidationResult.errors (validateFlow nodes edges) →
          ∃ n, n ∈ nodes
               ∧ (e = config_warning n ∨ e = not_connected_warning n))
  ∧ (∀ edges', connected_ids edges' = connected_ids edges →
               validateFlow nodes edges' = validateFlow nodes edges).
Proof.
  intros Hne Hty. split; [|split].
  - rewrite isValid_agent_types by done. apply forallb_forall.
    intros n Hn%list_elem_of_In.
    by rewrite nonempty_agent_type_truthy by auto.
  - intros e. rewrite validateFlow_errors by done.
    intros [(n & Hfind & Hn)%list_elem_of_bind | Hnc]%elem_of_app.
    + exists n. split; [done|].
      apply elem_of_node_findings in Hfind as [[Hno _]| ->]; [|by left].
      rewrite nonempty_agent_type_truthy in Hno by auto. done.
    + apply elem_of_not_connected_findings in Hnc as (n & Hn & ->). eauto.
  - intros edges'. apply validateFlow_edge_ends.
Qed.

(** Three agents on the cycle [a -> b -> c -> a]. *)
Lemma C3_no_cycle_detection_witness :
  ValidationResult.isValid (validateFlow abc cycle_abc) = true
  ∧ (∀ e, e ∈ ValidationResult.errors (validateFlow abc cycle_abc) →
          ∃ n, n ∈ abc
               ∧ (e = config_warning n ∨ e = not_connected_warning n))
  ∧ (∀ edges', connected_ids edges' = connected_ids cycle_abc →
               validateFlow abc edges' = validateFlow abc cycle_abc).
Proof.
  apply C3_no_cycle_detection; [done|].
  intros n Hn. unfold abc in Hn.
  repeat (apply elem_of_cons in Hn as [->|Hn];
          [eexists; split; [reflexivity|done]|]).
  by apply not_elem_of_nil in Hn.
Defined.

Example cycle_is_valid :
  validateFlow abc cycle_abc
  = {| ValidationResult.isValid := true; ValidationResult.errors := [] |}.
Proof. vm_compute. reflexivity. Qed.

(** ** C8: [validateFlow] is a function of its arguments

    The heap model and the value model agree: a call allocates one array at
    a fresh address, leaves it holding the value model's [errors], and
    changes nothing else. *)

Lemma M_bind_run {A B : Type} (m : Imperative.M A) (f : A → Imperative.M B)
  (h : gmap nat (list ValidationError.t)) :
  (m ≫= f) h = f (m h).1 (m h).2.
Proof. unfold mbind, Imperative.M_bind. by destruct (m h). Qed.

Lemma array_push_run (l : nat) (e : ValidationError.t)
  (h : gmap nat (list ValidationError.t)) (arr : list ValidationError.t) :
  h !! l = Some arr →
  Imperative.array_push l e h = (tt, <[ l := (arr ++ [e])%list ]> h).
Proof.
  intros Hl. unfold Imperative.array_push. f_equal.
  apply map_eq. intros k. rewrite lookup_alter, lookup_insert.
  rewrite Hl. by case_decide.
Qed.

Lemma for_of_run {A : Type} (l : nat) (g : A → list ValidationError.t)
  (body : A → Imperative.M unit) (xs : list A) :
  (∀ x h arr, h !! l = Some arr →
              body x h = (tt, <[ l := (arr ++ g x)%list ]> h)) →
  ∀ h arr, h !! l = Some arr →
    Imperative.for_of xs body h = (tt, <[ l := (arr ++ (xs ≫= g))%list ]> h).
Proof.
  intros Hbody. induction xs as [|x xs IH]; intros h arr Hl; simpl.
  - unfold mret, Imperative.M_ret. rewrite app_nil_r. by rewrite insert_id.
  - rewrite M_bind_run, (Hbody x h arr Hl). simpl.
    rewrite (IH _ (arr ++ g x)%list) by apply lookup_insert_eq.
    by rewrite insert_insert_eq, <- app_assoc.
Qed.

Lemma when_push_run (b : bool) (l : nat) (e : ValidationError.t)
  (h : gmap nat (list ValidationError.t)) (arr : list ValidationError.t) :
  h !! l = Some arr →
  Imperative.when b (Imperative.array_push l e) h
  = (tt, <[ l := (arr ++ (if b then [e] else []))%list ]> h).
Proof.
  intros Hl. destruct b; simpl.
  - by apply array_push_run.
  - unfold mret, Imperative.M_ret. rewrite app_nil_r. by rewrite insert_id.
Qed.

Lemma node_body_run (l : nat) (node : Node.t)
  (h : gmap nat (list ValidationError.t)) (arr : list ValidationError.t) :
  h !! l = Some arr →
  (Imperative.when (no_agent_type node)
     (Imperative.array_push l (agent_type_error node)) ;;
   Imperative.when (negb (hasConfig node))
     (Imperative.array_push l (config_warning node))) h
  = (tt, <[ l := (arr ++ node_findings node)%list ]> h).
Proof.
  intros Hl. rewrite M_bind_run.
  rewrite (when_push_run (no_agent_type node) l _ h arr Hl). cbn [fst snd].
  rewrite (when_push_run _ _ _ _ (arr ++ _)%list) by apply lookup_insert_eq.
  by rewrite insert_insert_eq, <- app_assoc.
Qed.

Lemma bind_singletons {A B : Type} (f : A → B) (l : list A) :
  l ≫= (λ a, [f a]) = map f l.
Proof. induction l as [|a l IH]; [done|]. simpl. by f_equal. Qed.

Lemma validateFlow_run (nodes : list Node.t) (edges : list Edge.t)
  (h : gmap nat (list ValidationError.t)) :
  Imperative.validateFlow nodes edges h
  = ({| Imperative.isValid :=
          ValidationResult.isValid (validateFlow nodes edges);
        Imperative.errors := fresh (dom h) |},
     <[ fresh (dom h) := ValidationResult.errors (validateFlow nodes edges) ]> h).
Proof.
  unfold Imperative.validateFlow. rewrite M_bind_run.
  unfold Imperative.new_array. cbn [fst snd].
  set (l := fresh (dom h)).
  assert ((<[ l := [] ]> h) !! l = Some []) as H0 by apply lookup_insert_eq.
  destruct (decide (nodes = [])) as [->|Hne].
  - simpl. rewrite M_bind_run, (array_push_run _ _ _ [] H0). simpl.
    by rewrite insert_insert_eq.
  - rewrite length_eqb_0, bool_decide_eq_false_2 by done.
    rewrite M_bind_run.
    rewrite (for_of_run l node_findings
               (λ node,
                  Imperative.when (no_agent_type node)
                    (Imperative.array_push l (agent_type_error node)) ;;
                  Imperative.when (negb (hasConfig node))
                    (Imperative.array_push l (config_warning node)))
               nodes (node_body_run l) _ [] H0).
    cbn [fst snd]. rewrite insert_insert_eq, app_nil_l.
    rewrite M_bind_run.
    assert (Imperative.when
              ((1 <? length nodes)%nat
               && (size (connected_ids edges) <? length nodes)%nat)
              (Imperative.for_of
                 (filter (λ n, Node.id n ∉ connected_ids edges) nodes)
                 (λ node, Imperative.array_push l (not_connected_warning node)))
              (<[ l := nodes ≫= node_findings ]> h)
            = (tt, <[ l := ValidationResult.errors (validateFlow nodes edges) ]> h))
      as ->.
    { rewrite validateFlow_errors by done. unfold not_connected_findings.
      destruct (_ && _); simpl.
      - rewrite (for_of_run l (λ n, [not_connected_warning n])
                   (λ node, Imperative.array_push l (not_connected_warning node))
                   _ (λ x h' arr, array_push_run l _ h' arr)
                   _ (nodes ≫= node_findings)) by apply lookup_insert_eq.
        by rewrite insert_insert_eq, bind_singletons.
      - unfold mret, Imperative.M_ret. by rewrite app_nil_r. }
    cbn [fst snd]. rewrite M_bind_run. unfold Imperative.array_some.
    cbn [fst snd]. rewrite lookup_insert_eq. simpl.
    unfold mret, Imperative.M_ret. by rewrite validateFlow_isValid.
Qed.

(** C8. Two calls of [validateFlow] in a row on the same nodes and edges,
    started in any heap, return the same [isValid] flag and two arrays with
    the same entries in the same order, namely those of the value model;
    the arrays are distinct objects, and every array that existed before
    the calls is left as it was. *)
Theorem C8_validate_twice_identical (nodes : list Node.t) (edges : list Edge.t)
  (h : gmap nat (list ValidationError.t)) :
  let '((r1, r2), h') := Imperative.validate_twice nodes edges h in
  Imperative.isValid r1 = Imperative.isValid r2
  ∧ Imperative.isValid r1 = ValidationResult.isValid (validateFlow nodes edges)
  ∧ h' !! Imperative.errors r1
    = Some (ValidationResult.errors (validateFlow nodes edges))
  ∧ h' !! Imperative.errors r2 = h' !! Imperative.errors r1
  ∧ Imperative.errors r1 ≠ Imperative.errors r2
  ∧ (∀ l, is_Some (h !! l) → h' !! l = h !! l).
Proof.
  unfold Imperative.validate_twice.
  rewrite M_bind_run, validateFlow_run. cbn [fst snd].
  rewrite M_bind_run, validateFlow_run. cbn [fst snd].
  unfold mret, Imperative.M_ret. cbn [Imperative.isValid Imperative.errors].
  set (l1 := fresh (dom h)).
  set (h1 := <[ l1 := _ ]> h).
  set (l2 := fresh (dom h1)).
  assert (l1 ∉ dom h) as Hl1 by apply is_fresh.
  assert (l2 ∉ dom h1) as Hl2 by apply is_fresh.
  assert (l1 ≠ l2) as Hne.
  { intros Heq. apply Hl2. rewrite <- Heq. unfold h1.
    apply elem_of_dom. rewrite lookup_insert_eq. by eexists. }
  repeat split; try done.
  - rewrite lookup_insert_ne by done. apply lookup_insert_eq.
  - rewrite lookup_insert_eq, lookup_insert_ne by done.
    unfold h1. by rewrite lookup_insert_eq.
  - intros l Hl.
    assert (l ≠ l1) by (intros ->; by apply Hl1, elem_of_dom).
    assert (l ≠ l2).
    { intros ->. apply Hl2, elem_of_dom. unfold h1.
      by rewrite lookup_insert_ne. }
    rewrite lookup_insert_ne by done. unfold h1.
    by rewrite lookup_insert_ne.
Qed.

(** ** C9: [updateNodeConfig] *)

Lemma with_config_fields (config : gmap string JsValue) (node : Node.t) :
  data_fields (with_config config node) !! "config" = Some (VObj config)
  ∧ ∀ key, key ≠ "config" →
           data_fields (with_config config node) !! key
           = data_fields node !! key.
Proof.
  unfold data_fields, with_config. simpl. split.
  - apply lookup_insert_eq.
  - intros key Hkey. by rewrite lookup_insert_ne.
Qed.

Lemma updateNodeConfig_nodes (nodeId : string) (config : gmap string JsValue)
  (state : FlowState.t) :
  FlowState.nodes (updateNodeConfig nodeId config state)
  = (λ node, if String.eqb (Node.id node) nodeId
             then with_config config node else node)
      <$> FlowState.nodes state.
Proof. done. Qed.

(** C9. [updateNodeConfig nodeId config] keeps the length of the node list
    and the order of the ids; at every index a node with another id is the
    same node, and a node with id [nodeId] keeps its id, type and position
    and every data field other than [config], which becomes the given
    object; if no node has the id the list is unchanged; and no other field
    of the store changes. *)
Theorem C9_updateNodeConfig_frame (nodeId : string)
  (config : gmap string JsValue) (state : FlowState.t) :
  length (FlowState.nodes (updateNodeConfig nodeId config state))
  = length (FlowState.nodes state)
  ∧ map Node.id (FlowState.nodes (updateNodeConfig nodeId config state))
    = map Node.id (FlowState.nodes state)
  ∧ (∀ i node, FlowState.nodes state !! i = Some node →
       ∃ node',
         FlowState.nodes (updateNodeConfig nodeId config state) !! i
         = Some node'
         ∧ (Node.id node ≠ nodeId → node' = node)
         ∧ (Node.id node = nodeId →
              Node.id node' = Node.id node
              ∧ Node.type node' = Node.type node
              ∧ Node.position node' = Node.position node
              ∧ data_fields node' !! "config" = Some (VObj config)
              ∧ ∀ key, key ≠ "config" →
                       data_fields node' !! key = data_fields node !! key))
  ∧ ((∀ node, node ∈ FlowState.nodes state → Node.id node ≠ nodeId) →
     updateNodeConfig nodeId config state = state)
  ∧ FlowState.edges (updateNodeConfig nodeId config state)
    = FlowState.edges state
  ∧ FlowState.currentFlowId (updateNodeConfig nodeId config state)
    = FlowState.currentFlowId state
  ∧ FlowState.currentFlowName (updateNodeConfig nodeId config state)
    = FlowState.currentFlowName state
  ∧ FlowState.currentFlowDescription (updateNodeConfig nodeId config state)
    = FlowState.currentFlowDescription state
  ∧ FlowState.isLoadingFlows (updateNodeConfig nodeId config state)
    = FlowState.isLoadingFlows state
  ∧ FlowState.currentExecution (updateNodeConfig nodeId config state)
    = FlowState.currentExecution state.
Proof.
  rewrite updateNodeConfig_nodes.
  split; [apply length_fmap|].
  split.
  { induction (FlowState.nodes state) as [|n ns IH]; [done|].
    csimpl. f_equal; [|exact IH].
    by destruct (String.eqb (Node.id n) nodeId). }
  split.
  { intros i node Hi. rewrite list_lookup_fmap, Hi. simpl.
    eexists. split; [reflexivity|].
    destruct (String.eqb_spec (Node.id node) nodeId) as [Heq|Hne].
    - split; [done|]. intros _.
      pose proof (with_config_fields config node) as [Hc Hk]. done.
    - split; [done|]. intros Heq. done. }
  split; [|done].
  intros Hno. unfold updateNodeConfig, set_nodes.
  destruct state as [fid name descr ns es loading exec]. simpl in *.
  f_equal.
  induction ns as [|n ns IH]; [done|].
  simpl. rewrite IH.
  - destruct (String.eqb_spec (Node.id n) nodeId) as [Heq|Hne]; [|done].
    exfalso. apply (Hno n); [apply elem_of_cons; auto|done].
  - intros m Hm. apply Hno, elem_of_cons. auto.
Qed.

Example updateNodeConfig_sample :
  FlowState.nodes
    (updateNodeConfig "b" {[ "limit" := VNum 3 ]}
       (set_nodes [agent "a" "trading"; bare "b"] saved_empty_flow))
  = [agent "a" "trading"; mk_node "b" {[ "config" := VObj {[ "limit" := VNum 3 ]} ]}].
Proof. vm_compute. reflexivity. Qed.

(** ** C7: the two run handlers *)


(** The run button of the header posts the run request for the current
    flow id whatever the nodes and edges of the store are: [validateFlow]
    is not called on this path. *)
Lemma App_handleRunFlow_posts (api_run : string → ExecutionResult + ApiError)
  (store : FlowState.t) (s : App.t) (flowId : string) :
  FlowState.currentFlowId store = Some flowId → flowId ≠ "" →
  App.posted (App.handleRunFlow api_run store s).2
  = (App.posted s ++ [flowId])%list.
Proof.
  intros Hid Hne. unfold App.handleRunFlow, App.runFlow. rewrite Hid.
  destruct flowId as [|c flowId]; [done|].
  destruct (api_run _); done.
Qed.

(** C7, the failing input. On a saved flow without nodes [validateFlow]
    reports the flow as invalid and the sidebar's handler starts nothing,
    yet the header's handler posts the run request. *)
Theorem C7_header_run_skips_validation :
  ValidationResult.isValid
    (validateFlow (FlowState.nodes saved_empty_flow)
                  (FlowState.edges saved_empty_flow)) = false
  ∧ Sidebar.runCalls (Sidebar.handleRunFlow saved_empty_flow sidebar0) = 0%nat
  ∧ App.posted (App.handleRunFlow accepting_backend saved_empty_flow app0).2
    = ["flow-1"]
  ∧ App.showExecutionMonitor
      (App.handleRunFlow accepting_backend saved_empty_flow app0).2 = true.
Proof.
  split; [reflexivity|]. split; [reflexivity|].
  split; [|reflexivity].
  by rewrite (App_handleRunFlow_posts _ _ _ "flow-1").
Qed.

(** ** C10: the message handler *)

(** C10. For every incoming payload [ws.onmessage] returns normally: no
    exception leaves it, whether [JSON.parse] fails or the [onMessage]
    callback throws.  When the payload is not valid JSON the handler only
    prints the parse error to the console: [onMessage] is not called, and
    the sockets, the current socket, the timers and the connected flag are
    as before. *)
Theorem C10_onmessage_total (env : Env) (payload : string) (s : Hook.t) :
  (∃ s', Hook.ws_onmessage env payload s = (Hook.Returned tt, s'))
  ∧ (JSON_parse env payload = None →
     Hook.ws_onmessage env payload s
     = (Hook.Returned tt,
        Hook.print (console_error "Failed to parse WebSocket message:"
                                  "SyntaxError") s)
     ∧ Hook.calls (Hook.ws_onmessage env payload s).2 = Hook.calls s
     ∧ connection (Hook.ws_onmessage env payload s).2 = connection s
     ∧ Hook.isConnected (Hook.ws_onmessage env payload s).2
       = Hook.isConnected s).
Proof.
  unfold Hook.ws_onmessage, Hook.try_catch, Hook.JSON_parse_call.
  unfold mbind, Hook.T_bind.
  destruct (JSON_parse env payload) as [data|] eqn:Hparse.
  - split; [|done].
    unfold mret, Hook.T_ret, Hook.onMessage_call, Hook.lift, Hook.throw.
    unfold mbind, Hook.T_bind, mret, Hook.T_ret.
    destruct (onMessage_throws env data); eauto.
  - unfold Hook.throw, Hook.lift. split; [eauto|]. intros _. done.
Qed.

(** A payload that is not JSON, on an open connection. *)
Lemma C10_onmessage_total_witness :
  JSON_parse demo_env "{oops" = None
  ∧ Hook.ws_onmessage demo_env "{oops" streaming
    = (Hook.Returned tt,
       Hook.print (console_error "Failed to parse WebSocket message:"
                                 "SyntaxError") streaming).
Proof.
  split; [reflexivity|].
  apply (proj2 (C10_onmessage_total demo_env "{oops" streaming)).
  reflexivity.
Defined.

(** ** C1: reconnecting *)

Lemma ws_onmessage_connection (env : Env) (payload : string) (s : Hook.t) :
  connection (Hook.ws_onmessage env payload s).2 = connection s.
Proof.
  unfold Hook.ws_onmessage, Hook.try_catch, Hook.JSON_parse_call.
  unfold mbind, Hook.T_bind.
  destruct (JSON_parse env payload) as [data|]; [|done].
  unfold mret, Hook.T_ret, Hook.onMessage_call, Hook.lift, Hook.throw.
  unfold mbind, Hook.T_bind, mret, Hook.T_ret.
  by destruct (onMessage_throws env data).
Qed.






Lemma closed_socket_not_open (env : Env) (i : nat) (s : Hook.t) :
  Hook.wsRef s = Some i →
  Hook.current_is_open
    (Hook.clearTimeout (Hook.nextTimer s) (Hook.ws_onclose env i s)) = false.
Proof.
  intros Href. unfold Hook.current_is_open. simpl. rewrite Href. simpl.
  destruct (Hook.sockets s !! i) as [ws|] eqn:Hi.
  - erewrite list_lookup_alter_eq, Hi. done.
  - rewrite list_lookup_alter_eq, Hi. done.
Qed.



Example reconnect_request_sample :
  reconnect_request demo_env [(3, "null"); (4, "true")]
  = Some {| url := "ws://localhost:8000/ws/execution/exec-1";
            readyState := CONNECTING; sent := [] |}.
Proof. vm_compute. reflexivity. Qed.

Example wsUrl_https :
  wsUrl {| VITE_API_URL := Some "https://flows.example.org";
           JSON_parse := JSON_parse_literals;
           executionId := Some "e7";
           onMessage_throws := λ _, false |} "e7"
  = "wss://flows.example.org/ws/execution/e7".
Proof. vm_compute. reflexivity. Qed.

(** * Further properties *)

(** ** flowValidation.ts *)

Lemma error_messages_of_result (nodes : list Node.t) (edges : list Edge.t) :
  nodes ≠ [] →
  error_messages (ValidationResult.errors (validateFlow nodes edges))
  = map (λ n, "Node " +:+ Node.id n +:+ " has no agent type")
        (filter (λ n, no_agent_type n = true) nodes).
Proof.
  intros Hne. unfold error_messages.
  change (filter (λ e, ValidationError.type e = error)
                 (ValidationResult.errors (validateFlow nodes edges)))
    with (filter is_error (ValidationResult.errors (validateFlow nodes edges))).
  rewrite errors_of_severity_error by done.
  by rewrite map_map.
Qed.

(** X2. The text [getValidationMessage] gives for the result of
    [validateFlow]: the empty-flow message for a graph without nodes; the
    "valid and ready" text when every node has an agent type; otherwise one
    line "Node <id> has no agent type" per node with a falsy agent type, in
    node order and separated by newlines.  Warnings never appear in it. *)
Theorem getValidationMessage_of_validateFlow (nodes : list Node.t)
  (edges : list Edge.t) :
  getValidationMessage (validateFlow nodes edges)
  = if bool_decide (nodes = []) then "Flow must contain at least one node"
    else if forallb (λ n, negb (no_agent_type n)) nodes
         then "Flow is valid and ready to run"
         else String.concat LF
                (map (λ n, "Node " +:+ Node.id n +:+ " has no agent type")
                     (filter (λ n, no_agent_type n = true) nodes)).
Proof.
  destruct (decide (nodes = [])) as [->|Hne]; [done|].
  rewrite bool_decide_eq_false_2 by done.
  unfold getValidationMessage.
  rewrite isValid_agent_types by done.
  destruct (forallb _ nodes); [done|].
  by rewrite error_messages_of_result.
Qed.

Lemma length_node_findings (node : Node.t) :
  (length (node_findings node) ≤ 2)%nat.
Proof.
  unfold node_findings.
  destruct (no_agent_type node), (negb (hasConfig node)); simpl; lia.
Qed.

Lemma length_loop_findings (nodes : list Node.t) :
  (length (nodes ≫= node_findings) ≤ 2 * length nodes)%nat.
Proof.
  induction nodes as [|n nodes IH]; [done|].
  cbn [mbind list_bind]. rewrite length_app. simpl.
  pose proof (length_node_findings n). lia.
Qed.

Lemma length_not_connected_findings (nodes : list Node.t)
  (edges : list Edge.t) :
  (length (not_connected_findings nodes edges) ≤ length nodes)%nat.
Proof.
  unfold not_connected_findings. destruct (_ && _); [|simpl; lia].
  rewrite length_map. apply length_filter.
Qed.

(** X3. The result never holds more than three entries per node (one for
    the empty graph), and every entry names a node of the graph: an entry
    without node id only occurs for the graph without nodes. *)
Theorem validateFlow_entries_bounded (nodes : list Node.t)
  (edges : list Edge.t) :
  (length (ValidationResult.errors (validateFlow nodes edges))
   ≤ Nat.max 1 (3 * length nodes))%nat
  ∧ ∀ e, e ∈ ValidationResult.errors (validateFlow nodes edges) →
         match ValidationError.nodeId e with
         | Some i => i ∈ map Node.id nodes
         | None => nodes = []
         end.
Proof.
  destruct (decide (nodes = [])) as [->|Hne].
  { rewrite validateFlow_nil. simpl. split; [lia|].
    by intros e ->%list_elem_of_singleton. }
  rewrite validateFlow_errors by done. split.
  - rewrite length_app.
    pose proof (length_loop_findings nodes).
    pose proof (length_not_connected_findings nodes edges). lia.
  - intros e [(n & Hfind & Hn)%list_elem_of_bind | Hnc]%elem_of_app.
    + apply elem_of_node_findings in Hfind as [[_ ->]| ->]; simpl;
        by apply (list_elem_of_fmap_2 Node.id).
    + apply elem_of_not_connected_findings in Hnc as (n & Hn & ->). simpl.
      by apply (list_elem_of_fmap_2 Node.id).
Qed.

Lemma connected_ids_ext (edges edges' : list Edge.t) :
  (∀ i, (∃ e, e ∈ edges' ∧ (Edge.source e = i ∨ Edge.target e = i))
        ↔ (∃ e, e ∈ edges ∧ (Edge.source e = i ∨ Edge.target e = i))) →
  connected_ids edges' = connected_ids edges.
Proof.
  intros H. apply set_eq. intros i.
  by rewrite !elem_of_connected_ids.
Qed.

(** X4. The result does not depend on the order of the edges, on how often
    an edge is listed, or on the direction of the edges: reordering,
    repeating or reversing them gives the same [ValidationResult]. *)
Theorem validateFlow_ignores_edge_order_and_direction (nodes : list Node.t)
  (edges : list Edge.t) :
  (∀ edges', edges' ≡ₚ edges →
             validateFlow nodes edges' = validateFlow nodes edges)
  ∧ validateFlow nodes (edges ++ edges) = validateFlow nodes edges
  ∧ validateFlow nodes (map reverse_edge edges) = validateFlow nodes edges.
Proof.
  split; [|split].
  - intros edges' Hp. apply validateFlow_edge_ends, connected_ids_ext.
    intros i. split; intros (e & He & Hi); exists e; split; try done.
    + by rewrite <- Hp.
    + by rewrite Hp.
  - apply validateFlow_edge_ends, connected_ids_ext.
    intros i. split; intros (e & He & Hi); exists e; split; try done.
    + apply elem_of_app in He as [?|?]; done.
    + apply elem_of_app. by left.
  - apply validateFlow_edge_ends, connected_ids_ext.
    intros i. split.
    + intros (e & (e0 & -> & He0)%list_elem_of_fmap & Hi).
      exists e0. split; [done|]. simpl in Hi. tauto.
    + intros (e & He & Hi). exists (reverse_edge e).
      split; [by apply (list_elem_of_fmap_2 reverse_edge)|]. simpl. tauto.
Qed.

(** ** flowStore.ts and the node handlers of App.tsx *)

Lemma with_config_twice (c1 c2 : gmap string JsValue) (node : Node.t) :
  with_config c2 (with_config c1 node) = with_config c2 node.
Proof. unfold with_config. simpl. by rewrite insert_insert_eq. Qed.

Lemma set_nodes_twice (ns1 ns2 : list Node.t) (state : FlowState.t) :
  set_nodes ns2 (set_nodes ns1 state) = set_nodes ns2 state.
Proof. done. Qed.

(** X5. Configuring the same node twice keeps the last configuration only:
    [updateNodeConfig id c2] after [updateNodeConfig id c1] gives the store
    that [updateNodeConfig id c2] alone gives. *)
Theorem updateNodeConfig_last_wins (nodeId : string)
  (c1 c2 : gmap string JsValue) (state : FlowState.t) :
  updateNodeConfig nodeId c2 (updateNodeConfig nodeId c1 state)
  = updateNodeConfig nodeId c2 state.
Proof.
  unfold updateNodeConfig. simpl. rewrite set_nodes_twice. f_equal.
  rewrite map_map. apply map_ext. intros n.
  destruct (String.eqb (Node.id n) nodeId) eqn:E; simpl; rewrite E; [|done].
  apply with_config_twice.
Qed.

(** X6. Configurations of nodes with different ids do not interfere: the
    two updates can be made in either order. *)
Theorem updateNodeConfig_commutes (i j : string) (ci cj : gmap string JsValue)
  (state : FlowState.t) :
  i ≠ j →
  updateNodeConfig i ci (updateNodeConfig j cj state)
  = updateNodeConfig j cj (updateNodeConfig i ci state).
Proof.
  intros Hij. unfold updateNodeConfig. simpl. rewrite !set_nodes_twice.
  f_equal. rewrite !map_map. apply map_ext. intros n.
  destruct (String.eqb (Node.id n) j) eqn:Ej,
           (String.eqb (Node.id n) i) eqn:Ei; simpl; rewrite ?Ej, ?Ei; try done.
  apply String.eqb_eq in Ej, Ei. congruence.
Qed.

(** Two different nodes of the chain are configured in both orders. *)
Lemma updateNodeConfig_commutes_witness :
  updateNodeConfig "a" {[ "limit" := VNum 3 ]}
    (updateNodeConfig "b" ∅ chain_store)
  = updateNodeConfig "b" ∅
      (updateNodeConfig "a" {[ "limit" := VNum 3 ]} chain_store).
Proof. apply updateNodeConfig_commutes. done. Defined.

Lemma updateNodeConfig_reconfigure (nodeId : string)
  (config : gmap string JsValue) (state : FlowState.t) :
  FlowState.nodes (updateNodeConfig nodeId config state)
  = reconfigure nodeId config <$> FlowState.nodes state.
Proof. done. Qed.

Lemma reconfigure_id (nodeId : string) (config : gmap string JsValue)
  (node : Node.t) :
  Node.id (reconfigure nodeId config node) = Node.id node.
Proof. unfold reconfigure. by destruct (String.eqb _ _). Qed.

Lemma reconfigure_type (nodeId : string) (config : gmap string JsValue)
  (node : Node.t) :
  data_get (reconfigure nodeId config node) "type" = data_get node "type".
Proof.
  unfold reconfigure. destruct (String.eqb _ _); [|done].
  unfold data_get, with_config. simpl. rewrite lookup_insert_ne by done.
  by destruct (Node.data node).
Qed.

Lemma map_filter_fmap {A B : Type} (f : A → A) (g : A → B) (P : A → Prop)
  `{!∀ a, Decision (P a)} (l : list A) :
  (∀ a, g (f a) = g a) → (∀ a, P (f a) ↔ P a) →
  map g (filter P (f <$> l)) = map g (filter P l).
Proof.
  intros Hg HP. induction l as [|a l IH]; [done|].
  csimpl. rewrite !filter_cons.
  destruct (decide (P (f a))) as [Hfa|Hfa], (decide (P a)) as [Ha|Ha].
  - simpl. by rewrite Hg, IH.
  - exfalso. by apply Ha, HP.
  - exfalso. by apply Hfa, HP.
  - exact IH.
Qed.

Lemma size_config_entry_count (nodeId : string) (config : gmap string JsValue)
  (node : Node.t) :
  Node.id node = nodeId →
  config_entry_count (reconfigure nodeId config node) = size config.
Proof.
  intros Hid. unfold reconfigure.
  rewrite (proj2 (String.eqb_eq _ _) Hid).
  unfold config_entry_count, data_get, with_config. simpl.
  by rewrite lookup_insert_eq.
Qed.

(** X7. Configuring a node does not change what validation says about
    agent types and connections: [isValid], the error entries and the "not
    connected" warnings are the same before and after [updateNodeConfig].
    Only the "no configuration" warnings can change: with a non-empty
    configuration none is left for that node id, and with an empty one
    every node of that id has one. *)
Theorem updateNodeConfig_keeps_verdict (nodeId : string)
  (config : gmap string JsValue) (state : FlowState.t) (edges : list Edge.t) :
  ValidationResult.isValid
    (validateFlow (FlowState.nodes (updateNodeConfig nodeId config state)) edges)
  = ValidationResult.isValid (validateFlow (FlowState.nodes state) edges)
  ∧ filter is_error
      (ValidationResult.errors
         (validateFlow (FlowState.nodes (updateNodeConfig nodeId config state))
                       edges))
    = filter is_error
        (ValidationResult.errors (validateFlow (FlowState.nodes state) edges))
  ∧ filter is_not_connected_warning
      (ValidationResult.errors
         (validateFlow (FlowState.nodes (updateNodeConfig nodeId config state))
                       edges))
    = filter is_not_connected_warning
        (ValidationResult.errors (validateFlow (FlowState.nodes state) edges))
  ∧ (config ≠ ∅ →
     ∀ e, e ∈ ValidationResult.errors
                (validateFlow
                   (FlowState.nodes (updateNodeConfig nodeId config state))
                   edges) →
          is_config_warning e → ValidationError.nodeId e ≠ Some nodeId)
  ∧ (config = ∅ →
     ∀ n, n ∈ FlowState.nodes state → Node.id n = nodeId →
          config_warning n
            ∈ ValidationResult.errors
                (validateFlow
                   (FlowState.nodes (updateNodeConfig nodeId config state))
                   edges)).
Proof.
  rewrite updateNodeConfig_reconfigure.
  set (f := reconfigure nodeId config).
  destruct (FlowState.nodes state) as [|n0 ns] eqn:Hns.
  { simpl. repeat split; try done.
    - intros _ e ->%list_elem_of_singleton [? _]. done.
    - intros _ n Hn. by apply not_elem_of_nil in Hn. }
  assert (n0 :: ns ≠ []) as Hne by done.
  assert (f <$> (n0 :: ns) ≠ []) as Hne' by done.
  assert (∀ n, no_agent_type (f n) = no_agent_type n) as Hty
    by (intros n; unfold no_agent_type, f; by rewrite reconfigure_type).
  assert (∀ n, agent_type_error (f n) = agent_type_error n) as Herr
    by (intros n; unfold agent_type_error, f; by rewrite reconfigure_id).
  assert (∀ n, not_connected_warning (f n) = not_connected_warning n) as Hnc
    by (intros n; unfold not_connected_warning, f;
        by rewrite reconfigure_id, reconfigure_type).
  assert (∀ n, config_warning (f n) = config_warning n) as Hcw
    by (intros n; unfold config_warning, f;
        by rewrite reconfigure_id, reconfigure_type).
  split; [|split; [|split; [|split]]].
  - rewrite !isValid_agent_types by done.
    generalize (n0 :: ns). intros l. induction l as [|n l IH]; [done|].
    csimpl. by rewrite Hty, IH.
  - rewrite !errors_of_severity_error by done.
    apply map_filter_fmap; [done|]. intros n. by rewrite Hty.
  - rewrite !not_connected_warnings_of_result by done.
    rewrite length_fmap. destruct (_ && _); [|done].
    apply map_filter_fmap; [done|]. intros n.
    unfold untouched, f. by rewrite reconfigure_id.
  - intros Hcfg e He Hw Hid.
    assert (e ∈ filter is_config_warning
                  (ValidationResult.errors
                     (validateFlow (f <$> n0 :: ns) edges))) as Hin
      by (by apply list_elem_of_filter).
    rewrite config_warnings_of_result in Hin by done.
    apply list_elem_of_fmap in Hin as (n' & -> & [Hcnt Hn']%list_elem_of_filter).
    apply list_elem_of_fmap in Hn' as (n & -> & Hn).
    simpl in Hid. injection Hid as Hid. unfold f in *.
    rewrite reconfigure_id in Hid.
    rewrite size_config_entry_count in Hcnt by done.
    by apply map_size_empty_iff in Hcnt.
  - intros -> n Hn Hid.
    apply (list_elem_of_filter is_config_warning).
    rewrite config_warnings_of_result by done. rewrite <- (Hcw n).
    apply list_elem_of_fmap_2, list_elem_of_filter. split.
    + unfold f. by rewrite size_config_entry_count.
    + by apply list_elem_of_fmap_2.
Qed.

Lemma find_node_Some (nodeId : string) (nodes : list Node.t) (n : Node.t) :
  find_node nodeId nodes = Some n → Node.id n = nodeId ∧ n ∈ nodes.
Proof.
  unfold find_node. intros H%head_Some_elem_of.
  by apply list_elem_of_filter in H.
Qed.

Lemma find_node_None (nodeId : string) (nodes : list Node.t) :
  (∀ n, n ∈ nodes → Node.id n ≠ nodeId) → find_node nodeId nodes = None.
Proof.
  intros H. unfold find_node. by rewrite filter_none.
Qed.

(** X8. Deleting a node removes exactly the nodes with that id and keeps
    the others in their order; the selection is dropped if it was that
    node; the edges of the store are not touched, so if an edge started or
    ended at the deleted node the store afterwards holds an edge whose
    endpoint is no node. *)
Theorem handleDeleteNode_leaves_edges (nodeId : string) (store : FlowState.t)
  (selectedNodeId : option string) :
  (∀ n, n ∈ FlowState.nodes (handleDeleteNode nodeId store selectedNodeId).1
        ↔ n ∈ FlowState.nodes store ∧ Node.id n ≠ nodeId)
  ∧ FlowState.nodes (handleDeleteNode nodeId store selectedNodeId).1
      `sublist_of` FlowState.nodes store
  ∧ FlowState.edges (handleDeleteNode nodeId store selectedNodeId).1
    = FlowState.edges store
  ∧ (handleDeleteNode nodeId store selectedNodeId).2 ≠ Some nodeId
  ∧ ((∃ e, e ∈ FlowState.edges store
           ∧ (Edge.source e = nodeId ∨ Edge.target e = nodeId)) →
     ¬ endpoints_exist
         (FlowState.nodes (handleDeleteNode nodeId store selectedNodeId).1)
         (FlowState.edges (handleDeleteNode nodeId store selectedNodeId).1)).
Proof.
  unfold handleDeleteNode. cbn [fst snd setNodes set_nodes FlowState.nodes
                                 FlowState.edges].
  split; [|split; [|split; [|split]]].
  - intros n. rewrite list_elem_of_filter. tauto.
  - apply sublist_filter.
  - done.
  - case_decide; [done|]. congruence.
  - intros (e & He & Hend) Hex.
    unfold endpoints_exist in Hex. rewrite Forall_forall in Hex.
    destruct (Hex e He) as [Hs Ht].
    assert (nodeId ∈ map Node.id
              (filter (λ node, Node.id node ≠ nodeId) (FlowState.nodes store)))
      as Hin by (by destruct Hend as [<-|<-]).
    apply list_elem_of_fmap in Hin as (n & Hid & [Hne _]%list_elem_of_filter).
    by apply Hne.
Qed.

Lemma duplicate_no_agent_type (node : Node.t) (now : Z) :
  no_agent_type (duplicate_of node now) = no_agent_type node.
Proof. done. Qed.

(** X9. Duplicating a node whose id no node has changes nothing.
    Otherwise the first node with the id is copied and the copy is appended
    after all existing nodes, which stay as they are; the copy has the
    original's type and data, is moved by 50 in both directions and is
    called "<type>-<clock reading>"; the edges are untouched and [isValid]
    is what it was. *)
Theorem handleDuplicateNode_appends_copy (now : Z) (nodeId : string)
  (store : FlowState.t) :
  ((∀ n, n ∈ FlowState.nodes store → Node.id n ≠ nodeId) →
   handleDuplicateNode now nodeId store = store)
  ∧ (∀ n, find_node nodeId (FlowState.nodes store) = Some n →
       Node.id n = nodeId
       ∧ n ∈ FlowState.nodes store
       ∧ FlowState.nodes (handleDuplicateNode now nodeId store)
         = (FlowState.nodes store
              ++ [ {| Node.id := default "undefined" (Node.type n)
                                 +:+ "-" +:+ pretty now;
                      Node.type := Node.type n;
                      Node.position :=
                        {| x := x (Node.position n) + 50;
                           y := y (Node.position n) + 50 |};
                      Node.data := Node.data n |} ])%list
       ∧ ValidationResult.isValid
           (validateFlow (FlowState.nodes (handleDuplicateNode now nodeId store))
                         (FlowState.edges store))
         = ValidationResult.isValid
             (validateFlow (FlowState.nodes store) (FlowState.edges store)))
  ∧ FlowState.edges (handleDuplicateNode now nodeId store)
    = FlowState.edges store.
Proof.
  unfold handleDuplicateNode. split; [|split].
  - intros Hno. by rewrite find_node_None.
  - intros n Hfind. rewrite Hfind.
    destruct (find_node_Some _ _ _ Hfind) as [Hid Hin].
    split; [done|]. split; [done|]. split; [done|].
    cbn [setNodes set_nodes FlowState.nodes].
    assert (FlowState.nodes store ≠ []) as Hne
      by (intros E; rewrite E in Hin; by apply not_elem_of_nil in Hin).
    rewrite !isValid_agent_types by (done || by destruct (FlowState.nodes store)).
    rewrite forallb_app. simpl.
    rewrite duplicate_no_agent_type, andb_true_r.
    destruct (forallb _ (FlowState.nodes store)) eqn:E; [|done].
    simpl. rewrite forallb_forall in E. apply E. by apply list_elem_of_In.
  - by destruct (find_node _ _).
Qed.

(** On a well-formed graph with more than one node the "not connected"
    warnings are those of the untouched nodes. *)
Lemma not_connected_well_formed (nodes : list Node.t) (edges : list Edge.t) :
  (1 < length nodes)%nat → unique_ids nodes → endpoints_exist nodes edges →
  filter is_not_connected_warning
         (ValidationResult.errors (validateFlow nodes edges))
  = map not_connected_warning (filter (untouched edges) nodes).
Proof.
  intros Hlen Hnd Hex.
  assert (nodes ≠ []) as Hne by (intros ->; simpl in Hlen; lia).
  rewrite not_connected_warnings_of_result by done.
  apply Nat.ltb_lt in Hlen as ->. simpl.
  destruct (size (connected_ids edges) <? length nodes)%nat eqn:E; [done|].
  apply Nat.ltb_ge in E. by rewrite guard_closed_all_touched.
Qed.

(** X10. In a well-formed graph (unique ids, every edge endpoint a node),
    a copy whose new id is not yet in use keeps the graph well-formed, and
    since no edge can touch it, validation reports the copy as not
    connected. *)
Theorem duplicate_is_reported_unconnected (now : Z) (nodeId : string)
  (store : FlowState.t) (n : Node.t) :
  find_node nodeId (FlowState.nodes store) = Some n →
  unique_ids (FlowState.nodes store) →
  endpoints_exist (FlowState.nodes store) (FlowState.edges store) →
  duplicate_id n now ∉ map Node.id (FlowState.nodes store) →
  unique_ids (FlowState.nodes (handleDuplicateNode now nodeId store))
  ∧ endpoints_exist (FlowState.nodes (handleDuplicateNode now nodeId store))
                    (FlowState.edges (handleDuplicateNode now nodeId store))
  ∧ not_connected_warning (duplicate_of n now)
      ∈ ValidationResult.errors
          (validateFlow (FlowState.nodes (handleDuplicateNode now nodeId store))
                        (FlowState.edges (handleDuplicateNode now nodeId store))).
Proof.
  intros Hfind Hnd Hex Hfresh.
  destruct (find_node_Some _ _ _ Hfind) as [Hid Hin].
  unfold handleDuplicateNode. rewrite Hfind.
  cbn [setNodes set_nodes FlowState.nodes FlowState.edges].
  set (nodes := FlowState.nodes store) in *.
  set (edges := FlowState.edges store) in *.
  set (copy := duplicate_of n now).
  assert (unique_ids (nodes ++ [copy])) as Hnd'.
  { unfold unique_ids in *. rewrite map_app. apply NoDup_app.
    split; [done|]. split; [|apply NoDup_singleton].
    intros i Hi Hc. apply list_elem_of_singleton in Hc. subst i.
    by apply Hfresh. }
  assert (endpoints_exist (nodes ++ [copy]) edges) as Hex'.
  { unfold endpoints_exist in *. eapply Forall_impl; [exact Hex|].
    intros e [Hs Ht]. rewrite map_app. split; apply elem_of_app; by left. }
  split; [done|]. split; [done|].
  assert (nodes ≠ []) as Hne
    by (intros E; rewrite E in Hin; by apply not_elem_of_nil in Hin).
  apply (list_elem_of_filter is_not_connected_warning).
  rewrite not_connected_well_formed; [|rewrite length_app; simpl|done|done].
  - apply list_elem_of_fmap_2, list_elem_of_filter.
    split; [|apply elem_of_app; right; by apply list_elem_of_singleton].
    unfold untouched, endpoints_exist in *. eapply Forall_impl; [exact Hex|].
    intros e [Hs Ht]. split; intros Heq; apply Hfresh.
    + change (Node.id copy) with (duplicate_id n now) in Heq. by rewrite <- Heq.
    + change (Node.id copy) with (duplicate_id n now) in Heq. by rewrite <- Heq.
  - destruct nodes; [done|]. simpl. lia.
Qed.

(** The first node of the chain is duplicated at clock reading
    1700000000000. *)
Lemma duplicate_is_reported_unconnected_witness :
  not_connected_warning (duplicate_of (agent "a" "trading") 1700000000000)
    ∈ ValidationResult.errors
        (validateFlow
           (FlowState.nodes (handleDuplicateNode 1700000000000 "a" chain_store))
           (FlowState.edges (handleDuplicateNode 1700000000000 "a" chain_store))).
Proof.
  apply (duplicate_is_reported_unconnected 1700000000000 "a" chain_store
           (agent "a" "trading")).
  - reflexivity.
  - apply (bool_decide_unpack _). vm_compute. exact I.
  - apply (bool_decide_unpack _). vm_compute. exact I.
  - apply (bool_decide_unpack _). vm_compute. exact I.
Defined.

(** X11. A flow just created with [createNewFlow] cannot be run from
    either button: the sidebar's handler shows the empty-flow message and
    does not call [onRunFlow], and the header's handler posts nothing and
    reports that no flow is selected. *)
Theorem createNewFlow_cannot_run (name : string) (description : option string)
  (store : FlowState.t) (side : Sidebar.t) (app : App.t)
  (api_run : string → ExecutionResult + ApiError) :
  Sidebar.handleRunFlow (createNewFlow name description store) side
  = {| Sidebar.validationMessage :=
         "❌ Flow validation failed:" +:+ LF
         +:+ "Flow must contain at least one node";
       Sidebar.timeouts := (Sidebar.timeouts side ++ [5000])%list;
       Sidebar.runCalls := Sidebar.runCalls side |}
  ∧ App.posted
      (App.handleRunFlow api_run (createNewFlow name description store) app).2
    = App.posted app
  ∧ App.run_error
      (App.handleRunFlow api_run (createNewFlow name description store) app).2
    = Some "No flow selected"
  ∧ (App.handleRunFlow api_run (createNewFlow name description store) app).1
    = createNewFlow name description store.
Proof. repeat split. Qed.

(** ** Saving, loading and running *)

(** X12. Whatever the backend answers, [saveFlow] issues exactly one
    create-or-update request, first of its requests, and the body of that
    request carries the store's name and description and, as its
    definition, the store's nodes and edges; it is an update (PUT to the
    current id) when the store has a non-empty flow id and a create (POST)
    otherwise.  If the backend rejects, the store is unchanged and nothing
    else is requested. *)
Theorem saveFlow_sends_whole_graph (backend : ApiCall → string + ApiError)
  (state : FlowState.t) :
  ∃ call rest,
    (saveFlow backend state).2 = call :: rest
    ∧ body_of call
      = Some {| body_name := Some (FlowState.currentFlowName state);
                body_description := Some (FlowState.currentFlowDescription state);
                body_tags := None;
                body_definition :=
                  Some (FlowState.nodes state, FlowState.edges state) |}
    ∧ (is_POST call
       ↔ FlowState.currentFlowId state = None
         ∨ FlowState.currentFlowId state = Some "")
    ∧ (∀ flowId body, call = PUT_flow flowId body →
                      FlowState.currentFlowId state = Some flowId)
    ∧ match backend call with
      | inl flowId =>
          (saveFlow backend state).1.1 = Some flowId
          ∧ rest = [GET_flows 100 0]
      | inr _ =>
          (saveFlow backend state).1.1 = None
          ∧ (saveFlow backend state).1.2 = state
          ∧ rest = []
      end.
Proof.
  unfold saveFlow.
  destruct (FlowState.currentFlowId state) as [[|c flowId]|] eqn:Hid;
    match goal with
    | |- context [backend ?c] =>
        exists c, (match backend c with
                   | inl _ => [GET_flows 100 0]
                   | inr _ => []
                   end)
    end;
    (split; [by destruct (backend _)|]);
    (split; [reflexivity|]); split.
  - simpl. tauto.
  - split; [done|]. by destruct (backend _).
  - simpl. split; [done|]. intros [?|?]; discriminate.
  - split; [by intros ? ? [= <- _]|]. by destruct (backend _).
  - simpl. tauto.
  - split; [done|]. by destruct (backend _).
Qed.

(** X13. Saving a new flow twice creates it once: when the backend answers
    the create request with a non-empty id, the store takes that id, and
    the next [saveFlow] sends an update to that id with the same graph,
    not a second create. *)
Theorem saveFlow_twice_creates_once (backend : ApiCall → string + ApiError)
  (state : FlowState.t) (flowId : string) :
  FlowState.currentFlowId state = None →
  (saveFlow backend state).1.1 = Some flowId →
  flowId ≠ "" →
  FlowState.currentFlowId (saveFlow backend state).1.2 = Some flowId
  ∧ ∃ rest,
      (saveFlow backend (saveFlow backend state).1.2).2
      = PUT_flow flowId
          {| body_name := Some (FlowState.currentFlowName state);
             body_description :=
               Some (FlowState.currentFlowDescription state);
             body_tags := None;
             body_definition :=
               Some (FlowState.nodes state, FlowState.edges state) |}
        :: rest.
Proof.
  intros Hid Hsaved Hne.
  remember (saveFlow backend state) as r eqn:Hr.
  unfold saveFlow in Hr. rewrite Hid in Hr.
  destruct (backend _) as [fid|err]; subst r; simpl in *; [|done].
  injection Hsaved as ->. split; [done|].
  unfold saveFlow. simpl. destruct flowId as [|c flowId]; [done|].
  destruct (backend _); eexists; reflexivity.
Qed.

(** The unsaved chain is saved twice with a backend that names it. *)
Lemma saveFlow_twice_creates_once_witness :
  FlowState.currentFlowId (saveFlow naming_backend unsaved_chain).1.2
  = Some "flow-9"
  ∧ ∃ rest,
      (saveFlow naming_backend (saveFlow naming_backend unsaved_chain).1.2).2
      = PUT_flow "flow-9"
          {| body_name := Some (FlowState.currentFlowName unsaved_chain);
             body_description :=
               Some (FlowState.currentFlowDescription unsaved_chain);
             body_tags := None;
             body_definition :=
               Some (FlowState.nodes unsaved_chain,
                     FlowState.edges unsaved_chain) |}
        :: rest.
Proof.
  apply (saveFlow_twice_creates_once naming_backend unsaved_chain "flow-9");
    done.
Defined.

(** X14. Save and load are inverse on the graph: if the backend returns for
    some id the flow that [saveFlow] sent, [loadFlow] of that answer, into
    any store, restores the name, the description, the nodes and the edges
    of the saved store, and makes that id the current one. *)
Theorem loadFlow_of_saved_flow (backend : ApiCall → string + ApiError)
  (state other : FlowState.t) (flowId : string) :
  ∃ call body,
    head (saveFlow backend state).2 = Some call
    ∧ body_of call = Some body
    ∧ loadFlow (stored_flow flowId body) other
      = {| FlowState.currentFlowId := Some flowId;
           FlowState.currentFlowName := FlowState.currentFlowName state;
           FlowState.currentFlowDescription :=
             FlowState.currentFlowDescription state;
           FlowState.nodes := FlowState.nodes state;
           FlowState.edges := FlowState.edges state;
           FlowState.isLoadingFlows := FlowState.isLoadingFlows other;
           FlowState.currentExecution := FlowState.currentExecution other |}.
Proof.
  unfold saveFlow.
  destruct (FlowState.currentFlowId state) as [[|c fid]|];
    destruct (backend _); eexists _, _;
    (split; [reflexivity|]); (split; [reflexivity|]); reflexivity.
Qed.

Lemma first_truthy_nonempty (a : option string) (b : string) :
  App.first_truthy a b "Failed to run flow" ≠ "".
Proof.
  unfold App.first_truthy.
  destruct a as [m|]; [destruct (String.eqb_spec m "")|];
    try (destruct (String.eqb_spec b "")); done.
Qed.

(** X15. What the header's run handler leaves behind.  Without a flow id
    nothing is posted, the store is unchanged and the error is "No flow
    selected".  With a flow id exactly one request is posted and the
    running flag ends [false]; if the backend accepts, the execution
    becomes the store's current one, the error is cleared and the monitor
    is opened; if it rejects, the store is unchanged, the monitor is not
    opened by this call, and the error shown is a non-empty text. *)
Theorem handleRunFlow_outcomes (api_run : string → ExecutionResult + ApiError)
  (store : FlowState.t) (s : App.t) :
  match FlowState.currentFlowId store with
  | None | Some "" =>
      App.handleRunFlow api_run store s
      = (store,
         {| App.isRunning := App.isRunning s;
            App.run_error := Some "No flow selected";
            App.showExecutionMonitor := App.showExecutionMonitor s;
            App.posted := App.posted s |})
  | Some flowId =>
      App.posted (App.handleRunFlow api_run store s).2
      = (App.posted s ++ [flowId])%list
      ∧ App.isRunning (App.handleRunFlow api_run store s).2 = false
      ∧ match api_run flowId with
        | inl execution =>
            FlowState.currentExecution (App.handleRunFlow api_run store s).1
            = Some execution
            ∧ App.run_error (App.handleRunFlow api_run store s).2 = None
            ∧ App.showExecutionMonitor (App.handleRunFlow api_run store s).2
              = true
        | inr err =>
            (App.handleRunFlow api_run store s).1 = store
            ∧ App.showExecutionMonitor (App.handleRunFlow api_run store s).2
              = App.showExecutionMonitor s
            ∧ ∃ message,
                App.run_error (App.handleRunFlow api_run store s).2
                = Some message
                ∧ message ≠ ""
        end
  end.
Proof.
  unfold App.handleRunFlow, App.runFlow.
  destruct (FlowState.currentFlowId store) as [[|c flowId]|]; [done| |done].
  destruct (api_run _) as [execution|err]; simpl; [done|].
  repeat split. eexists. split; [reflexivity|]. apply first_truthy_nonempty.
Qed.

(** ** api/client.ts and useWebSocket.ts *)

(** X16. The socket URL follows the API base: an [https://host] base gives
    [wss://host/ws/execution/<id>], an [http://host] base gives
    [ws://host/ws/execution/<id>], and without a configured base (unset or
    empty) the URL is [ws://localhost:8000/ws/execution/<id>]. *)
Theorem wsUrl_follows_api_base (env : Env) (host executionId : string) :
  (VITE_API_URL env = Some ("https://" +:+ host) →
   wsUrl env executionId = "wss://" +:+ host +:+ "/ws/execution/" +:+ executionId)
  ∧ (VITE_API_URL env = Some ("http://" +:+ host) →
     wsUrl env executionId
     = "ws://" +:+ host +:+ "/ws/execution/" +:+ executionId)
  ∧ (VITE_API_URL env = None ∨ VITE_API_URL env = Some "" →
     wsUrl env executionId
     = "ws://localhost:8000/ws/execution/" +:+ executionId).
Proof.
  unfold wsUrl, API_BASE, strip_scheme. split; [|split].
  - intros ->. destruct host; reflexivity.
  - intros ->. destruct host; reflexivity.
  - intros [-> | ->]; reflexivity.
Qed.

Lemma Forall_filter_keep {A : Type} (P Q : A → Prop) `{!∀ a, Decision (Q a)}
  (l : list A) : Forall P l → Forall P (filter Q l).
Proof.
  rewrite !Forall_forall. intros HP a [_ Ha]%list_elem_of_filter. auto.
Qed.

Lemma NoDup_fst_filter {A B : Type} (Q : A * B → Prop)
  `{!∀ p, Decision (Q p)} (l : list (A * B)) :
  NoDup l.*1 → NoDup (filter Q l).*1.
Proof.
  induction l as [|p l IH]; [done|].
  csimpl. intros [Hp Hl]%NoDup_cons. rewrite filter_cons.
  destruct (decide (Q p)); [|auto].
  csimpl. apply NoDup_cons. split; [|auto].
  intros (p' & Hp' & [_ Hin]%list_elem_of_filter)%list_elem_of_fmap.
  apply Hp. rewrite Hp'. by apply list_elem_of_fmap_2.
Qed.

Lemma invariant_connect (env : Env) (s : Hook.t) :
  hook_invariant env s → hook_invariant env (Hook.connect env s).
Proof.
  intros H. unfold Hook.connect.
  destruct (executionId env) as [[|c eid]|] eqn:Heid; [done| |done].
  destruct (Hook.current_is_open s); [done|].
  destruct H as (Hu & Ht & Hnd & Hr & Htr).
  split_and!; simpl; try done.
  - apply Forall_app. split; [done|]. apply Forall_singleton.
    by rewrite Heid.
  - intros i [= <-]. rewrite length_app. simpl. lia.
Qed.

Lemma invariant_set_readyState (env : Env) (i : nat) (rs : ReadyState)
  (s : Hook.t) :
  hook_invariant env s → hook_invariant env (Hook.set_readyState i rs s).
Proof.
  intros (Hu & Ht & Hnd & Hr & Htr). split_and!; simpl; try done.
  - apply Forall_alter; [done|]. by intros ws _.
  - intros j Hj. rewrite length_alter. auto.
Qed.

Lemma invariant_print (env : Env) (e : ConsoleEntry) (s : Hook.t) :
  hook_invariant env s → hook_invariant env (Hook.print e s).
Proof. intros (Hu & Ht & Hnd & Hr & Htr). by split_and!. Qed.

Lemma invariant_call (env : Env) (c : Callback) (s : Hook.t) :
  hook_invariant env s → hook_invariant env (Hook.call c s).
Proof. intros (Hu & Ht & Hnd & Hr & Htr). by split_and!. Qed.

Lemma invariant_setIsConnected (env : Env) (b : bool) (s : Hook.t) :
  hook_invariant env s → hook_invariant env (Hook.setIsConnected b s).
Proof. intros (Hu & Ht & Hnd & Hr & Htr). by split_and!. Qed.

Lemma invariant_setTimeout (env : Env) (s : Hook.t) :
  hook_invariant env s → hook_invariant env (Hook.setTimeout 3000 s).
Proof.
  intros (Hu & Ht & Hnd & Hr & Htr). split_and!; simpl; try done.
  - apply Forall_app. split.
    + eapply Forall_impl; [exact Ht|]. intros t [? ?]. split; [lia|done].
    + apply Forall_singleton. simpl. split; [lia|done].
  - rewrite fmap_app. apply NoDup_app. split; [done|].
    split; [|apply NoDup_singleton].
    intros t (p & -> & Hp)%list_elem_of_fmap Heq%list_elem_of_singleton.
    rewrite Forall_forall in Ht. destruct (Ht p Hp). simpl in Heq. lia.
  - intros t [= <-]. lia.
Qed.

Lemma invariant_clearTimeout (env : Env) (tid : nat) (s : Hook.t) :
  hook_invariant env s → hook_invariant env (Hook.clearTimeout tid s).
Proof.
  intros (Hu & Ht & Hnd & Hr & Htr). split_and!; simpl; try done.
  - by apply Forall_filter_keep.
  - by apply NoDup_fst_filter.
Qed.

Lemma invariant_onmessage (env : Env) (payload : string) (s : Hook.t) :
  hook_invariant env s →
  hook_invariant env (Hook.ws_onmessage env payload s).2.
Proof.
  intros H. unfold Hook.ws_onmessage, Hook.try_catch, Hook.JSON_parse_call.
  unfold mbind, Hook.T_bind.
  destruct (JSON_parse env payload) as [data|]; simpl.
  - unfold mret, Hook.T_ret, Hook.onMessage_call, Hook.lift, Hook.throw.
    unfold mbind, Hook.T_bind, mret, Hook.T_ret.
    destruct (onMessage_throws env data); simpl.
    + by apply invariant_print, invariant_call.
    + by apply invariant_call.
  - by apply invariant_print.
Qed.

Lemma invariant_send (env : Env) (text : string) (s : Hook.t) :
  hook_invariant env s → hook_invariant env (send text s).
Proof.
  intros H. unfold send.
  destruct (Hook.current_is_open s); [|done].
  destruct (Hook.wsRef s) as [i|] eqn:Hi; [|done].
  destruct H as (Hu & Ht & Hnd & Hr & Htr).
  split_and!; simpl; try done.
  - apply Forall_alter; [done|]. by intros ws _.
  - intros j Hj. rewrite length_alter. apply Hr. congruence.
Qed.

Lemma invariant_disconnect (env : Env) (s : Hook.t) :
  hook_invariant env s → hook_invariant env (Hook.disconnect s).
Proof.
  intros H. unfold Hook.disconnect. apply invariant_setIsConnected.
  set (s1 := match Hook.reconnectTimeoutRef s with
             | Some tid => Hook.clearTimeout tid s
             | None => s
             end).
  assert (hook_invariant env s1) as H1
    by (unfold s1; destruct (Hook.reconnectTimeoutRef s);
        [by apply invariant_clearTimeout|done]).
  destruct (Hook.wsRef s1) as [i|]; [|done].
  assert (hook_invariant env (Hook.ws_close i s1)) as (Hu & Ht & Hnd & Hr & Htr).
  { unfold Hook.ws_close. destruct (Hook.sockets s1 !! i); [|done].
    destruct (bool_decide _); [done|]. by apply invariant_set_readyState. }
  by split_and!.
Qed.

Lemma invariant_act (env : Env) (s : Hook.t) (a : Action) :
  hook_invariant env s → hook_invariant env (act env s a).
Proof.
  intros H. destruct a as [[i|i sq payload|i|i|tid]| | |text]; simpl.
  - unfold Hook.ws_onopen.
    by apply invariant_call, invariant_setIsConnected, invariant_print,
             invariant_set_readyState.
  - by apply invariant_onmessage.
  - unfold Hook.ws_onerror. by apply invariant_call, invariant_print.
  - unfold Hook.ws_onclose.
    by apply invariant_setTimeout, invariant_call, invariant_setIsConnected,
             invariant_print, invariant_set_readyState.
  - unfold Hook.timer_fires. destruct (bool_decide _); [|done].
    by apply invariant_connect, invariant_clearTimeout.
  - by apply invariant_connect.
  - by apply invariant_disconnect.
  - by apply invariant_send.
Qed.

(** X17. Whatever happens to a mounted hook - sockets opening, closing,
    failing or delivering messages, timers firing, the component calling
    [connect], [disconnect] or [send], in any order - every socket it has
    ever opened points to the URL of its execution, every pending timer is
    a 3000 ms reconnect timer with an id handed out before and used by no
    other pending timer, and the current socket and the recorded timer are
    ones the hook created. *)
Theorem hook_invariant_holds (env : Env) (actions : list Action) :
  hook_invariant env (run_actions env (Hook.mounted env) actions).
Proof.
  unfold run_actions.
  assert (hook_invariant env (Hook.mounted env)) as H0.
  { apply invariant_connect. split_and!; simpl; try done.
    apply NoDup_nil_2. }
  generalize dependent (Hook.mounted env). intros s Hs.
  revert s Hs. induction actions as [|a actions IH]; intros s Hs; [done|].
  simpl. by apply IH, invariant_act.
Qed.

Lemma no_execution_connect (env : Env) (s : Hook.t) :
  no_execution env → Hook.connect env s = s.
Proof. unfold Hook.connect. by intros [-> | ->]. Qed.

Lemma idle_act (env : Env) (s : Hook.t) (a : Action) :
  no_execution env →
  Hook.sockets s = [] ∧ Hook.wsRef s = None →
  Hook.sockets (act env s a) = [] ∧ Hook.wsRef (act env s a) = None.
Proof.
  intros Hno [Hs Hr].
  destruct a as [[i|i sq payload|i|i|tid]| | |text]; simpl.
  - by rewrite Hs.
  - pose proof (ws_onmessage_connection env payload s) as Hc.
    unfold connection in Hc. split; congruence.
  - done.
  - by rewrite Hs.
  - unfold Hook.timer_fires. destruct (bool_decide _); [|done].
    by rewrite no_execution_connect.
  - by rewrite no_execution_connect.
  - unfold Hook.disconnect.
    destruct (Hook.reconnectTimeoutRef s); simpl; by rewrite Hr.
  - unfold send, Hook.current_is_open. by rewrite Hr.
Qed.

(** X18. Without an execution id ([null] or empty) the hook never opens a
    socket: whatever events arrive, timers fire or calls are made, it has
    no socket and no current socket, and [send] drops every frame. *)
Theorem no_execution_no_socket (env : Env) (actions : list Action) :
  no_execution env →
  Hook.sockets (run_actions env (Hook.mounted env) actions) = []
  ∧ Hook.wsRef (run_actions env (Hook.mounted env) actions) = None
  ∧ ∀ text,
      send text (run_actions env (Hook.mounted env) actions)
      = run_actions env (Hook.mounted env) actions.
Proof.
  intros Hno.
  assert (Hook.sockets (run_actions env (Hook.mounted env) actions) = []
          ∧ Hook.wsRef (run_actions env (Hook.mounted env) actions) = None)
    as [Hs Hr].
  { unfold run_actions, Hook.mounted. rewrite no_execution_connect by done.
    assert (Hook.sockets Hook.init = [] ∧ Hook.wsRef Hook.init = None) as H0
      by done.
    revert H0. generalize Hook.init. intros s Hs.
    revert s Hs. induction actions as [|a actions IH]; intros s Hs; [done|].
    simpl. by apply IH, idle_act. }
  split; [done|]. split; [done|].
  intros text. unfold send, Hook.current_is_open. by rewrite Hr.
Qed.

(** A hook that was given no execution id, after a stray close event and
    a call of [connect]. *)
Lemma no_execution_no_socket_witness :
  Hook.sockets
    (run_actions
       {| VITE_API_URL := None; JSON_parse := JSON_parse_literals;
          executionId := None; onMessage_throws := λ _, false |}
       (Hook.mounted
          {| VITE_API_URL := None; JSON_parse := JSON_parse_literals;
             executionId := None; onMessage_throws := λ _, false |})
       [Happens (Hook.SocketClosed 0); Happens (Hook.TimerFired 0);
        CallConnect])
  = [].
Proof.
  apply (no_execution_no_socket
           {| VITE_API_URL := None; JSON_parse := JSON_parse_literals;
              executionId := None; onMessage_throws := λ _, false |}).
  by left.
Defined.

Lemma timer_fires_scheduled (env : Env) (i : nat) (s : Hook.t) :
  Hook.timer_fires env (Hook.nextTimer s) (Hook.ws_onclose env i s)
  = Hook.connect env
      (Hook.clearTimeout (Hook.nextTimer s) (Hook.ws_onclose env i s)).
Proof.
  unfold Hook.timer_fires. rewrite bool_decide_eq_true_2; [done|].
  simpl. rewrite fmap_app. apply elem_of_app. right.
  by apply list_elem_of_singleton.
Qed.

Lemma connect_opens (env : Env) (s : Hook.t) (eid : string) :
  executionId env = Some eid → eid ≠ "" →
  Hook.current_is_open s = false →
  Hook.connect env s
  = Hook.set_wsRef (Some (length (Hook.sockets s)))
      (Hook.set_sockets (Hook.sockets s ++ [fresh_socket env eid])%list s).
Proof.
  intros Heid Hne Hopen. unfold Hook.connect. rewrite Heid, Hopen.
  by destruct eid.
Qed.

(** X19. [disconnect] does not end the reconnecting.  It clears the
    current socket, the connected flag and the timer it knows of; but the
    close event that its own [ws.close()] causes runs the close handler,
    which schedules a new timer, and when that timer fires the hook opens
    a new socket to the same URL and makes it the current one. *)
Theorem disconnect_then_reconnects (env : Env) (s : Hook.t) (i : nat)
  (eid : string) :
  executionId env = Some eid → eid ≠ "" → Hook.wsRef s = Some i →
  Hook.wsRef (Hook.disconnect s) = None
  ∧ Hook.isConnected (Hook.disconnect s) = false
  ∧ (∀ t, Hook.reconnectTimeoutRef s = Some t →
          t ∉ (Hook.timers (Hook.disconnect s)).*1)
  ∧ Hook.timers (Hook.ws_onclose env i (Hook.disconnect s))
    = (Hook.timers (Hook.disconnect s)
         ++ [(Hook.nextTimer (Hook.disconnect s), 3000)])%list
  ∧ Hook.sockets
      (Hook.timer_fires env (Hook.nextTimer (Hook.disconnect s))
         (Hook.ws_onclose env i (Hook.disconnect s)))
    = (Hook.sockets (Hook.ws_onclose env i (Hook.disconnect s))
         ++ [fresh_socket env eid])%list
  ∧ Hook.wsRef
      (Hook.timer_fires env (Hook.nextTimer (Hook.disconnect s))
         (Hook.ws_onclose env i (Hook.disconnect s)))
    = Some (length (Hook.sockets s)).
Proof.
  intros Heid Hne Href.
  assert (Hook.wsRef (Hook.disconnect s) = None) as Hnone.
  { unfold Hook.disconnect.
    destruct (Hook.reconnectTimeoutRef s); simpl; by rewrite Href. }
  assert (length (Hook.sockets (Hook.disconnect s)) = length (Hook.sockets s))
    as Hlen.
  { unfold Hook.disconnect, Hook.ws_close.
    destruct (Hook.reconnectTimeoutRef s); simpl; rewrite Href; simpl;
      destruct (Hook.sockets s !! i); simpl; try done;
      destruct (bool_decide _); simpl; by rewrite ?length_alter. }
  split; [done|]. split; [done|]. split.
  { intros t Ht. unfold Hook.disconnect. rewrite Ht.
    assert (∀ s', Hook.timers
                    (Hook.setIsConnected false
                       match Hook.wsRef s' with
                       | Some j => Hook.set_wsRef None (Hook.ws_close j s')
                       | None => s'
                       end) = Hook.timers s') as Hkeep.
    { intros s'. destruct (Hook.wsRef s') as [j|]; [|done].
      unfold Hook.ws_close. destruct (Hook.sockets s' !! j); [|done].
      by destruct (bool_decide _). }
    rewrite Hkeep. simpl.
    intros (p & Hp & [Hne' _]%list_elem_of_filter)%list_elem_of_fmap.
    by apply Hne'. }
  split; [done|].
  rewrite timer_fires_scheduled.
  rewrite (connect_opens env _ eid); [|done|done|].
  - split; [done|].
    change (Some (length
                    (alter (λ ws, {| url := url ws; readyState := CLOSED;
                                     sent := sent ws |})
                           i (Hook.sockets (Hook.disconnect s))))
            = Some (length (Hook.sockets s))).
    by rewrite length_alter, Hlen.
  - unfold Hook.current_is_open.
    change (Hook.wsRef (Hook.clearTimeout
                          (Hook.nextTimer (Hook.disconnect s))
                          (Hook.ws_onclose env i (Hook.disconnect s))))
      with (Hook.wsRef (Hook.disconnect s)).
    by rewrite Hnone.
Qed.

(** The streaming hook is disconnected; its socket then reports the
    close and the timer fires. *)
Lemma disconnect_then_reconnects_witness :
  Hook.sockets
    (Hook.timer_fires demo_env (Hook.nextTimer (Hook.disconnect streaming))
       (Hook.ws_onclose demo_env 0 (Hook.disconnect streaming)))
  = (Hook.sockets (Hook.ws_onclose demo_env 0 (Hook.disconnect streaming))
       ++ [fresh_socket demo_env "exec-1"])%list.
Proof.
  apply (disconnect_then_reconnects demo_env streaming 0 "exec-1"); done.
Defined.

Lemma failed_attempt_step (env : Env) (s : Hook.t) (i : nat) (eid : string) :
  executionId env = Some eid → eid ≠ "" →
  Hook.wsRef s = Some i → Hook.timers s = [] →
  Hook.sockets (failed_attempt env s)
  = (alter (λ ws, {| url := url ws; readyState := CLOSED; sent := sent ws |})
           i (Hook.sockets s) ++ [fresh_socket env eid])%list
  ∧ Hook.wsRef (failed_attempt env s) = Some (length (Hook.sockets s))
  ∧ Hook.timers (failed_attempt env s) = []
  ∧ Hook.nextTimer (failed_attempt env s) = S (Hook.nextTimer s).
Proof.
  intros Heid Hne Href Htm. unfold failed_attempt. rewrite Href.
  rewrite timer_fires_scheduled.
  rewrite (connect_opens env _ eid) by
    (try done; by apply closed_socket_not_open).
  simpl. rewrite length_alter, Htm. simpl.
  split; [done|]. split; [done|]. split; [|done].
  rewrite filter_cons_False; [done|]. simpl. by intros H.
Qed.

(** X20. The reconnecting has no limit and no back-off: after any number
    [n] of failed attempts in a row (the current socket closes, 3000 ms
    later the timer fires) the hook has opened [n + 1] sockets, all to the
    same URL, the last of them current, and no timer is pending. *)
Theorem reconnects_without_limit (env : Env) (eid : string) (n : nat) :
  executionId env = Some eid → eid ≠ "" →
  length (Hook.sockets (Nat.iter n (failed_attempt env) (Hook.mounted env)))
  = S n
  ∧ Hook.wsRef (Nat.iter n (failed_attempt env) (Hook.mounted env)) = Some n
  ∧ Hook.timers (Nat.iter n (failed_attempt env) (Hook.mounted env)) = []
  ∧ Forall (λ ws, url ws = wsUrl env eid)
           (Hook.sockets (Nat.iter n (failed_attempt env) (Hook.mounted env))).
Proof.
  intros Heid Hne.
  assert (Hook.mounted env
          = Hook.set_wsRef (Some 0%nat)
              (Hook.set_sockets [fresh_socket env eid] Hook.init)) as Hm.
  { unfold Hook.mounted. by rewrite (connect_opens env _ eid). }
  induction n as [|n (Hlen & Href & Htm & Hurl)].
  - simpl. rewrite Hm. simpl. split_and!; try done.
    by apply Forall_singleton.
  - simpl.
    destruct (failed_attempt_step env _ n eid Heid Hne Href Htm)
      as (Hs & Hr & Ht & _).
    rewrite Hs, Hr, Ht, length_app, length_alter, Hlen. simpl.
    split_and!; try done; [lia|].
    apply Forall_app. split; [|by apply Forall_singleton].
    apply Forall_alter; [done|]. by intros ws _.
Qed.

(** Five failed attempts of the sample hook. *)
Lemma reconnects_without_limit_witness :
  length (Hook.sockets (Nat.iter 5 (failed_attempt demo_env)
                                 (Hook.mounted demo_env))) = 6%nat.
Proof.
  apply (reconnects_without_limit demo_env "exec-1" 5); done.
Defined.

(** ** The components behind the store and the hook *)

Lemma last_change_snoc (name : string) (changes : list (string * JsValue))
  (c : string * JsValue) :
  last_change name (changes ++ [c])
  = if decide (c.1 = name) then Some c.2 else last_change name changes.
Proof.
  unfold last_change. rewrite filter_app, filter_cons, filter_nil.
  destruct (decide (c.1 = name)).
  - by rewrite last_snoc.
  - by rewrite app_nil_r.
Qed.

Lemma formData_after_changes (config : gmap string JsValue)
  (changes : list (string * JsValue)) (name : string) :
  PropertyEditor.formData
    (foldl PropertyEditor.handleFieldChange (PropertyEditor.init config) changes)
    !! name
  = match last_change name changes with
    | Some v => Some v
    | None => config !! name
    end.
Proof.
  induction changes as [|c changes IH] using rev_ind; [done|].
  rewrite foldl_app, last_change_snoc. simpl.
  rewrite lookup_insert. destruct (decide (c.1 = name)); [done|exact IH].
Qed.

(** X21. The properties form.  After any sequence of field changes the
    form holds, for every field, the value of the last change to that field
    and else the value of the node's configuration; Apply writes exactly
    this object as the configuration of every node with the id and clears
    the dirty flag; Reset returns the form to the node's configuration. *)
Theorem PropertyEditor_apply_writes_form (nodeId : string)
  (config : gmap string JsValue) (changes : list (string * JsValue))
  (store : FlowState.t) :
  (∀ name,
     PropertyEditor.formData
       (foldl PropertyEditor.handleFieldChange (PropertyEditor.init config)
              changes) !! name
     = match last_change name changes with
       | Some v => Some v
       | None => config !! name
       end)
  ∧ (∀ i node, FlowState.nodes store !! i = Some node →
       Node.id node = nodeId →
       ∃ node',
         FlowState.nodes
           (PropertyEditor.handleApply nodeId store
              (foldl PropertyEditor.handleFieldChange
                     (PropertyEditor.init config) changes)).1 !! i
         = Some node'
         ∧ data_fields node' !! "config"
           = Some (VObj (PropertyEditor.formData
                           (foldl PropertyEditor.handleFieldChange
                                  (PropertyEditor.init config) changes))))
  ∧ PropertyEditor.isDirty
      (PropertyEditor.handleApply nodeId store
         (foldl PropertyEditor.handleFieldChange (PropertyEditor.init config)
                changes)).2 = false
  ∧ PropertyEditor.handleReset config
      (foldl PropertyEditor.handleFieldChange (PropertyEditor.init config)
             changes)
    = PropertyEditor.init config.
Proof.
  split; [apply formData_after_changes|]. split; [|done].
  intros i node Hi Hid. unfold PropertyEditor.handleApply. cbn [fst].
  rewrite updateNodeConfig_reconfigure, list_lookup_fmap, Hi. simpl.
  eexists. split; [reflexivity|].
  unfold reconfigure. rewrite (proj2 (String.eqb_eq _ _) Hid).
  apply with_config_fields.
Qed.

Lemma monitor_onMessage_log (data : JsValue) (logs : list string) :
  is_log data →
  monitor_onMessage data logs = Hook.Returned (logs ++ [log_of data])%list.
Proof.
  intros (fields & -> & Hty). unfold monitor_onMessage, member.
  by rewrite Hty.
Qed.

Lemma monitor_onMessage_other (data : JsValue) (logs : list string) :
  ¬ is_log data →
  monitor_onMessage data logs = Hook.Returned logs
  ∨ ∃ e, monitor_onMessage data logs = Hook.Thrown e.
Proof.
  intros Hno. unfold monitor_onMessage, member.
  destruct data as [| | | | |fields]; eauto.
  destruct (fields !! "type") as [[| | | |s|]|] eqn:E; simpl; auto.
  destruct (String.eqb_spec s "log") as [->|Hne]; [|auto].
  exfalso. apply Hno. by exists fields.
Qed.

Lemma monitor_logs_from (delivered : list JsValue) (logs : list string) :
  foldl (λ logs data,
           match monitor_onMessage data logs with
           | Hook.Returned logs' => logs'
           | Hook.Thrown _ => logs
           end)
        logs delivered
  = (logs ++ map log_of (filter is_log delivered))%list.
Proof.
  revert logs. induction delivered as [|data delivered IH]; intros logs.
  - simpl. by rewrite app_nil_r.
  - simpl. rewrite IH, filter_cons. destruct (decide (is_log data)) as [Hl|Hl].
    + rewrite monitor_onMessage_log by done. simpl. by rewrite <- app_assoc.
    + destruct (monitor_onMessage_other data logs Hl) as [-> | [e ->]]; done.
Qed.

(** X22. The log lines of the execution monitor are the messages of kind
    [log] that the hook delivered, one line "[<level>] <message>" each, in
    the order of delivery; every other message - a status event, a value
    that is no object - adds nothing. *)
Theorem monitor_shows_log_messages_only (delivered : list JsValue) :
  monitor_logs delivered = map log_of (filter is_log delivered).
Proof. unfold monitor_logs. by rewrite monitor_logs_from. Qed.



(** X24. The "last saved" label of the header.  A save less than a minute
    ago, or dated in the future, reads "Just now"; from one minute on it
    reads the whole minutes elapsed, between 1 and 59; from one hour on the
    whole hours, between 1 and 23; from a day on, the date. *)
Theorem formatLastSaved_ranges (localeDate : string) (now date : Z) :
  (now - date < 60000 → formatLastSaved localeDate now (Some date) = "Just now")
  ∧ (60000 ≤ now - date < 3600000 →
     formatLastSaved localeDate now (Some date)
     = pretty ((now - date) / 60000) +:+ "m ago"
     ∧ 1 ≤ (now - date) / 60000 ≤ 59)
  ∧ (3600000 ≤ now - date < 86400000 →
     formatLastSaved localeDate now (Some date)
     = pretty ((now - date) / 3600000) +:+ "h ago"
     ∧ 1 ≤ (now - date) / 3600000 ≤ 23)
  ∧ (86400000 ≤ now - date →
     formatLastSaved localeDate now (Some date) = localeDate).
Proof.
  unfold formatLastSaved.
  set (diff := now - date).
  assert (diff / 1000 / 60 = diff / 60000) as Hm
    by (rewrite Z.div_div by lia; reflexivity).
  assert (diff / 1000 / 60 / 60 = diff / 3600000) as Hh
    by (rewrite !Z.div_div by lia; reflexivity).
  rewrite Hh, Hm.
  split; [|split; [|split]]; intros Hd.
  - assert (diff / 1000 < 60) by (apply Z.div_lt_upper_bound; lia).
    by rewrite (proj2 (Z.ltb_lt _ _)).
  - assert (60 ≤ diff / 1000) by (apply Z.div_le_lower_bound; lia).
    assert (diff / 60000 < 60) by (apply Z.div_lt_upper_bound; lia).
    assert (1 ≤ diff / 60000) by (apply Z.div_le_lower_bound; lia).
    rewrite (proj2 (Z.ltb_ge _ _)) by done.
    rewrite (proj2 (Z.ltb_lt _ _)) by done. split; [done|lia].
  - assert (60 ≤ diff / 1000) by (apply Z.div_le_lower_bound; lia).
    assert (60 ≤ diff / 60000) by (apply Z.div_le_lower_bound; lia).
    assert (diff / 3600000 < 24) by (apply Z.div_lt_upper_bound; lia).
    assert (1 ≤ diff / 3600000) by (apply Z.div_le_lower_bound; lia).
    rewrite !(proj2 (Z.ltb_ge _ _)) by done.
    rewrite (proj2 (Z.ltb_lt _ _)) by done. split; [done|lia].
  - assert (60 ≤ diff / 1000) by (apply Z.div_le_lower_bound; lia).
    assert (60 ≤ diff / 60000) by (apply Z.div_le_lower_bound; lia).
    assert (24 ≤ diff / 3600000) by (apply Z.div_le_lower_bound; lia).
    by rewrite !(proj2 (Z.ltb_ge _ _)) by done.
Qed.
